(** * criptx44: notification dispatcher and live conversation list

    A shallow embedding of the two TypeScript units
    [src/hooks/useChatList.ts] and [src/services/NotificationService.ts].

    - JavaScript strings are [string]; [Date] values are their [getTime()]
      milliseconds in [Z]; objects used as string-keyed maps are [gmap].
    - Code that mutates state, calls collaborators and may throw is written
      in a small state-and-exception monad [M]: a thrown exception keeps the
      mutations made before it, as in the source.
    - Calls into collaborators (audio, haptics, notification scheduling, push
      transport, console, DOM events) are appended to a log in program order;
      what a collaborator answers (a value or a thrown error) is read from an
      environment record, one per invocation of a method.
    - Each [async] method of the dispatcher is modelled as one
      uninterrupted run: the interleaving of concurrently pending
      invocations is not modelled there. The passes of the conversation
      list do overlap; [ChatList.runHook] describes how. *)

From Stdlib Require Import ZArith Ascii String List Bool Lia Sorted Permutation.
From stdpp Require Import base option list strings gmap.

Local Open Scope string_scope.
Local Open Scope list_scope.
Local Open Scope stdpp_scope.
Local Open Scope Z_scope.

(** ** JavaScript values and control *)

Module Js.

(** A thrown value: the message of the error. *)
Definition error : Type := string.

(** The completion of a computation: a value, or a thrown error. *)
Inductive outcome (A : Type) : Type :=
| Ok (a : A)
| Throw (e : error).
Arguments Ok {A} a.
Arguments Throw {A} e.

Definition is_ok {A} (r : outcome A) : bool :=
  match r with Ok _ => true | Throw _ => false end.

(** Computations over a mutable world [W]. *)
Definition M (W A : Type) : Type := W → outcome A * W.

Definition ret {W A} (a : A) : M W A := λ w, (Ok a, w).

Definition bind {W A B} (m : M W A) (f : A → M W B) : M W B :=
  λ w, match m w with
       | (Ok a, w') => f a w'
       | (Throw e, w') => (Throw e, w')
       end.

Definition throw {W A} (e : error) : M W A := λ w, (Throw e, w).

Definition get {W} : M W W := λ w, (Ok w, w).

Definition modify {W} (f : W → W) : M W unit := λ w, (Ok tt, f w).

(** [await p] / a call whose completion is already known. *)
Definition lift {W A} (r : outcome A) : M W A := λ w, (r, w).

(** [try { body } catch (err) { handler err }] *)
Definition try_catch {W A} (body : M W A) (handler : error → M W A) : M W A :=
  λ w, match body w with
       | (Ok a, w') => (Ok a, w')
       | (Throw e, w') => handler e w'
       end.

(** [try { body } finally { fin }]: [fin] runs on both exits; a throw of
    [fin] itself replaces the pending completion. *)
Definition try_finally {W A} (body : M W A) (fin : M W unit) : M W A :=
  λ w, match body w with
       | (r, w') =>
           match fin w' with
           | (Ok _, w'') => (r, w'')
           | (Throw e, w'') => (Throw e, w'')
           end
       end.

(** [if (c) { m }] with no [else]. *)
Definition when {W} (c : bool) (m : M W unit) : M W unit :=
  if c then m else ret tt.

(** Truthiness of a possibly-absent string: [undefined] and the empty
    string are falsy. *)
Definition truthy (o : option string) : bool :=
  match o with
  | Some s => negb (String.eqb s EmptyString)
  | None => false
  end.

(** [o || d] for a possibly-absent string [o]. *)
Definition or_string (o : option string) (d : string) : string :=
  match o with
  | Some s => if String.eqb s EmptyString then d else s
  | None => d
  end.

(** [o || d] for a possibly-absent boolean. *)
Definition or_bool (o : option bool) (d : bool) : bool :=
  match o with
  | Some true => true
  | _ => d
  end.

(** [o || d] for a possibly-absent number ([0] is falsy). *)
Definition or_number (o : option Z) (d : Z) : Z :=
  match o with
  | Some n => if (n =? 0)%Z then d else n
  | None => d
  end.

(** [Array.prototype.find]. *)
Fixpoint find {A} (p : A → bool) (l : list A) : option A :=
  match l with
  | [] => None
  | x :: l' => if p x then Some x else find p l'
  end.

(** [Array.prototype.sort] with a comparator: the sort is stable, and an
    element [x] goes before [y] when [cmp x y <= 0] and [x] came first.
    Written as the insertion sort that keeps the original order of
    elements the comparator does not separate. *)
Fixpoint insert {A} (cmp : A → A → Z) (x : A) (l : list A) : list A :=
  match l with
  | [] => [x]
  | y :: l' => if (cmp x y <=? 0)%Z then x :: y :: l' else y :: insert cmp x l'
  end.

Fixpoint sort {A} (cmp : A → A → Z) (l : list A) : list A :=
  match l with
  | [] => []
  | x :: l' => insert cmp x (sort cmp l')
  end.

End Js.

Export Js.

Declare Scope js_scope.
Delimit Scope js_scope with js.
Notation "'let!' x ':=' c 'in' k" := (Js.bind c (λ x, k))
  (at level 10, x name, c at level 100, k at level 200) : js_scope.
Notation "c ;;; k" := (Js.bind c (λ _, k))
  (at level 100, k at level 200, right associativity) : js_scope.
Local Open Scope js_scope.

(** ** [src/hooks/useChatList.ts] *)

Module ChatList.

(** [truncateMessage(message, maxLength = 10)]:
    [message.length > maxLength ? message.slice(0, maxLength) + '...' : message].
    Lengths and slices count the code units of the string, here its
    characters; [maxLength] is a natural number, as at the only call sites. *)
Definition truncateMessage' (message : string) (maxLength : nat) : string :=
  if (maxLength <? String.length message)%nat
  then substring 0 maxLength message +:+ "..."
  else message.

Definition truncateMessage (message : string) : string :=
  truncateMessage' message 10.

(** What [chatDoc.data()] returns for a document of the [chats]
    collection. A field that may be missing is an [option]. *)
Record ChatData := {
  data_isGroup : bool;
  data_name : string;
  data_lastMessage : option string;
  data_lastMessageTime : option Z;
  data_unreadCount : option (gmap string Z);
  data_participants : option (list string);
  data_lastInteraction : option Z;
}.

Record ChatDoc := {
  doc_id : string;
  doc_data : ChatData;
}.

(** What [userSnap.data()] returns for a document of the [users]
    collection. *)
Record UserData := {
  user_displayName : option string;
  user_photoURL : option string;
  user_status : option string;
  user_lastSeen : option Z;
  user_isAnonymous : option bool;
}.

(** [timestamp: Date | string]. *)
Inductive Timestamp :=
| TsDate (ms : Z)
| TsString (s : string).

Record ChatPreview := {
  id : string;
  name : string;
  lastMessage : string;
  timestamp : Timestamp;
  unread : Z;
  photoURL : string;
  status : option string;
  lastSeen : option Z;
  isAnonymous : option bool;
  isGroup : bool;
  participants : option (list string);
  lastInteraction : option Z;
}.

(** The collaborators of one aggregation pass: [encodeURIComponent], and
    the point lookup [getDoc(doc(db, 'users', id))] followed by [.data()],
    which yields the profile, [undefined] ([None]), or rejects. *)
Record Runtime := {
  encodeURIComponent : string → string;
  getDoc_users : string → outcome (option UserData);
}.

Definition avatarURL (rt : Runtime) (n : string) : string :=
  "https://ui-avatars.com/api/?name=" +:+ encodeURIComponent rt n +:+ "&background=random".

(** [data.lastMessage ? truncateMessage(data.lastMessage) : ''] *)
Definition snippet (d : ChatData) : string :=
  match data_lastMessage d with
  | Some m => if String.eqb m EmptyString then EmptyString else truncateMessage m
  | None => EmptyString
  end.

(** [data.lastMessageTime?.toDate() || 'Nuovo'] *)
Definition timestampOf (d : ChatData) : Timestamp :=
  match data_lastMessageTime d with
  | Some t => TsDate t
  | None => TsString "Nuovo"
  end.

(** [data.unreadCount?.[currentUser.uid] || 0] *)
Definition unreadOf (uid : string) (d : ChatData) : Z :=
  or_number (data_unreadCount d ≫= (λ m : gmap string Z, m !! uid)) 0.

Definition groupPreview (rt : Runtime) (uid : string) (c : ChatDoc) : ChatPreview :=
  let data := doc_data c in
  {| id := doc_id c;
     name := data_name data;
     lastMessage := snippet data;
     timestamp := timestampOf data;
     unread := unreadOf uid data;
     photoURL := avatarURL rt (data_name data);
     status := None;
     lastSeen := None;
     isAnonymous := None;
     isGroup := true;
     participants := data_participants data;
     lastInteraction := data_lastInteraction data |}.

Definition directPreview (rt : Runtime) (uid : string) (c : ChatDoc)
    (userData : UserData) : ChatPreview :=
  let data := doc_data c in
  {| id := doc_id c;
     name := or_string (user_displayName userData) "Utente";
     lastMessage := snippet data;
     timestamp := timestampOf data;
     unread := unreadOf uid data;
     photoURL :=
       or_string (user_photoURL userData)
         (avatarURL rt (or_string (user_displayName userData) "U"));
     status := Some (or_string (user_status userData) "offline");
     lastSeen := user_lastSeen userData;
     isAnonymous := Some (or_bool (user_isAnonymous userData) false);
     isGroup := false;
     participants := None;
     lastInteraction := None |}.

(** [data.participants.find((id) => id !== currentUser.uid)]; reading
    [find] of a missing [participants] throws. *)
Definition otherParticipant (uid : string) (d : ChatData) : outcome (option string) :=
  match data_participants d with
  | Some ps => Ok (find (λ p, negb (String.eqb p uid)) ps)
  | None => Throw "TypeError: Cannot read properties of undefined (reading 'find')"
  end.

(** One iteration of the [for (const chatDoc of snapshot.docs)] loop:
    the previews it pushes (none or one), or the error it throws. *)
Definition previewsOf (rt : Runtime) (uid : string) (c : ChatDoc)
    : outcome (list ChatPreview) :=
  if data_isGroup (doc_data c) then Ok [groupPreview rt uid c]
  else
    match otherParticipant uid (doc_data c) with
    | Throw e => Throw e
    | Ok otherParticipantId =>
        if truthy otherParticipantId then
          match getDoc_users rt (default EmptyString otherParticipantId) with
          | Throw e => Throw e
          | Ok (Some userData) => Ok [directPreview rt uid c userData]
          | Ok None => Ok []
          end
        else Ok []
    end.

(** The whole loop: [chatsList] after the last iteration. *)
Fixpoint buildChatsList (rt : Runtime) (uid : string) (docs : list ChatDoc)
    (chatsList : list ChatPreview) : outcome (list ChatPreview) :=
  match docs with
  | [] => Ok chatsList
  | c :: docs' =>
      match previewsOf rt uid c with
      | Throw e => Throw e
      | Ok ps => buildChatsList rt uid docs' (chatsList ++ ps)
      end
  end.

(** The same loop read from the front: what the iterations push, in
    order, or the first error thrown. *)
Fixpoint collectPreviews (rt : Runtime) (uid : string) (docs : list ChatDoc)
    : outcome (list ChatPreview) :=
  match docs with
  | [] => Ok []
  | c :: docs' =>
      match previewsOf rt uid c with
      | Throw e => Throw e
      | Ok ps =>
          match collectPreviews rt uid docs' with
          | Throw e => Throw e
          | Ok l => Ok (ps ++ l)%list
          end
      end
  end.

(** [a.lastInteraction || (typeof a.timestamp === 'string' ? new Date(0) : a.timestamp)] *)
Definition sortTime (a : ChatPreview) : Timestamp :=
  match lastInteraction a with
  | Some t => TsDate t
  | None =>
      match timestamp a with
      | TsString _ => TsDate 0
      | TsDate t => TsDate t
      end
  end.

Definition isNuovo (t : Timestamp) : bool :=
  match t with
  | TsString s => String.eqb s "Nuovo"
  | TsDate _ => false
  end.

(** The comparator handed to [chatsList.sort]. *)
Definition compareChats (a b : ChatPreview) : Z :=
  match sortTime a, sortTime b with
  | TsDate timeA, TsDate timeB => timeB - timeA
  | _, _ =>
      if isNuovo (timestamp a) then -1
      else if isNuovo (timestamp b) then 1
      else 0
  end.

Definition sortChats (chatsList : list ChatPreview) : list ChatPreview :=
  sort compareChats chatsList.

(** [getTime()] of the instant a preview is sorted by. *)
Definition sortMillis (a : ChatPreview) : Z :=
  match sortTime a with
  | TsDate t => t
  | TsString _ => 0
  end.

(** The published order: most recent sort instant first. *)
Definition newerFirst (a b : ChatPreview) : Prop := sortMillis b ≤ sortMillis a.

(** A one-to-one record whose counterpart profile cannot be resolved:
    no participant other than the current user, or a point lookup that
    finds no profile. *)
Definition unresolvable (rt : Runtime) (uid : string) (c : ChatDoc) : Prop :=
  data_isGroup (doc_data c) = false ∧
  (otherParticipant uid (doc_data c) = Ok None ∨
   ∃ p, otherParticipant uid (doc_data c) = Ok (Some p) ∧ getDoc_users rt p = Ok None).

(** A one-to-one record whose counterpart profile is found. *)
Definition resolvable (rt : Runtime) (uid : string) (c : ChatDoc) : Prop :=
  data_isGroup (doc_data c) = false ∧
  ∃ p userData,
    otherParticipant uid (doc_data c) = Ok (Some p) ∧ p ≠ EmptyString ∧
    getDoc_users rt p = Ok (Some userData).

(** The state the hook publishes: [{ chats, loading, error }]. *)
Record HookState := {
  chats : list ChatPreview;
  loading : bool;
  error : option string;
  console : list string;
}.

Definition initialState : HookState :=
  {| chats := []; loading := true; error := None; console := [] |}.

Definition setChats (l : list ChatPreview) : M HookState unit :=
  modify (λ s, {| chats := l; loading := loading s; error := error s; console := console s |}).

Definition setLoading (b : bool) : M HookState unit :=
  modify (λ s, {| chats := chats s; loading := b; error := error s; console := console s |}).

Definition setError (e : option string) : M HookState unit :=
  modify (λ s, {| chats := chats s; loading := loading s; error := e; console := console s |}).

Definition console_error (msg : string) : M HookState unit :=
  modify (λ s, {| chats := chats s; loading := loading s; error := error s;
                  console := console s ++ [msg] |}).

(** The [next] callback of [onSnapshot]. *)
Definition onNext (rt : Runtime) (uid : string) (docs : list ChatDoc) : M HookState unit :=
  try_finally
    (try_catch
       (let! chatsList := lift (buildChatsList rt uid docs []) in
        setChats (sortChats chatsList) ;;;
        setError None)
       (λ err,
          console_error "Error processing chats:" ;;;
          setError (Some "Errore nel caricamento delle chat")))
    (setLoading false).

(** The [error] callback of [onSnapshot]. *)
Definition onError (err : Js.error) : M HookState unit :=
  console_error "Error in chat subscription:" ;;;
  setError (Some "Errore nella sincronizzazione delle chat") ;;;
  setLoading false.

(** What the subscription delivers. *)
Inductive Delivery :=
| Snapshot (rt : Runtime) (docs : list ChatDoc)
| TransportError (err : Js.error).

Definition deliver (uid : string) (d : Delivery) : M HookState unit :=
  match d with
  | Snapshot rt docs => onNext rt uid docs
  | TransportError err => onError err
  end.

(** A delivery that ends in error: a transport error, or a snapshot
    whose processing throws. *)
Definition deliveryFails (uid : string) (d : Delivery) : Prop :=
  match d with
  | Snapshot rt docs => is_ok (buildChatsList rt uid docs []) = false
  | TransportError _ => True
  end.

(** Deliveries applied one after another, in the order in which their
    callbacks complete (see [runHook] for how passes overlap): every
    write of a callback to the state happens at its end. *)
Fixpoint deliverAll (uid : string) (ds : list Delivery) (st : HookState) : HookState :=
  match ds with
  | [] => st
  | d :: ds' => deliverAll uid ds' (snd (deliver uid d st))
  end.

(** Overlapping passes. [next] is [async] and [onSnapshot] does not await
    it: a pass suspends at each [await getDoc], and a later delivery can
    arrive, and complete, meanwhile. All writes of a pass ([setChats],
    [setError], [setLoading]) come after its last [await], in one
    synchronous stretch, so a pass acts on the state when it completes.
    [Arrives d] is the subscription calling [next] or [error];
    [Completes n] is the [n]-th pending pass reaching its end. The
    [error] callback is synchronous and acts on arrival. *)
Inductive HookEvent :=
| Arrives (d : Delivery)
| Completes (n : nat).

Record Hook := {
  published : HookState;
  pending : list (Runtime * list ChatDoc);
}.

Definition hookStep (uid : string) (h : Hook) (ev : HookEvent) : Hook :=
  match ev with
  | Arrives (TransportError err) =>
      {| published := snd (onError err (published h)); pending := pending h |}
  | Arrives (Snapshot rt docs) =>
      {| published := published h; pending := pending h ++ [(rt, docs)] |}
  | Completes n =>
      match pending h !! n with
      | Some (rt, docs) =>
          {| published := snd (onNext rt uid docs (published h));
             pending := delete n (pending h) |}
      | None => h
      end
  end.

Fixpoint runHook (uid : string) (evs : list HookEvent) (h : Hook) : Hook :=
  match evs with
  | [] => h
  | ev :: evs' => runHook uid evs' (hookStep uid h ev)
  end.

(** The deliveries of a history in the order in which they act on the
    state: transport errors as they arrive, snapshots as their passes
    complete. *)
Fixpoint completionOrder (evs : list HookEvent) (pend : list (Runtime * list ChatDoc))
    : list Delivery :=
  match evs with
  | [] => []
  | Arrives (TransportError err) :: evs' => TransportError err :: completionOrder evs' pend
  | Arrives (Snapshot rt docs) :: evs' => completionOrder evs' (pend ++ [(rt, docs)])
  | Completes n :: evs' =>
      match pend !! n with
      | Some (rt, docs) => Snapshot rt docs :: completionOrder evs' (delete n pend)
      | None => completionOrder evs' pend
      end
  end.

(** The instant a record is sorted by, read off the record: a group by
    its last interaction, else its last message time; a one-to-one
    conversation by its last message time only; the epoch when the record
    has neither. *)
Definition recordInstant (d : ChatData) : Z :=
  if data_isGroup d then
    match data_lastInteraction d with
    | Some t => t
    | None => default 0 (data_lastMessageTime d)
    end
  else default 0 (data_lastMessageTime d).

(** A one-to-one record whose processing throws: it has no participants
    array, or the lookup of its counterpart's profile rejects. *)
Definition poisoned (rt : Runtime) (uid : string) (c : ChatDoc) : Prop :=
  data_isGroup (doc_data c) = false ∧
  (data_participants (doc_data c) = None ∨
   ∃ p e, otherParticipant uid (doc_data c) = Ok (Some p) ∧ p ≠ EmptyString ∧
          getDoc_users rt p = Throw e).

End ChatList.

(** ** [src/services/NotificationService.ts]: preferences *)

Module Preferences.

Record NotificationPreferences := {
  sound : bool;
  vibration : bool;
  background : bool;
  preview : bool;
  messageSound : string;
  callSound : string;
}.

Definition DEFAULT_SETTINGS : NotificationPreferences :=
  {| sound := true;
     vibration := true;
     background := true;
     preview := true;
     messageSound := "/sounds/message.mp3";
     callSound := "/sounds/call.mp3" |}.

(** [Partial<NotificationPreferences>]: a key the object does not have
    is [None]. *)
Record Partial := {
  sound' : option bool;
  vibration' : option bool;
  background' : option bool;
  preview' : option bool;
  messageSound' : option string;
  callSound' : option string;
}.

(** The object spread [{ ...base, ...p }]. *)
Definition spread (base : NotificationPreferences) (p : Partial)
    : NotificationPreferences :=
  {| sound := default (sound base) (sound' p);
     vibration := default (vibration base) (vibration' p);
     background := default (background base) (background' p);
     preview := default (preview base) (preview' p);
     messageSound := default (messageSound base) (messageSound' p);
     callSound := default (callSound base) (callSound' p) |}.

(** The keys of the interface and the values they hold, to speak about
    one key at a time. *)
Inductive Key := Ksound | Kvibration | Kbackground | Kpreview | KmessageSound | KcallSound.

Inductive Value :=
| VBool (b : bool)
| VString (s : string).

Definition read (k : Key) (s : NotificationPreferences) : Value :=
  match k with
  | Ksound => VBool (sound s)
  | Kvibration => VBool (vibration s)
  | Kbackground => VBool (background s)
  | Kpreview => VBool (preview s)
  | KmessageSound => VString (messageSound s)
  | KcallSound => VString (callSound s)
  end.

(** The value a partial update gives to a key, when it mentions it. *)
Definition mentions (k : Key) (p : Partial) : option Value :=
  match k with
  | Ksound => VBool <$> sound' p
  | Kvibration => VBool <$> vibration' p
  | Kbackground => VBool <$> background' p
  | Kpreview => VBool <$> preview' p
  | KmessageSound => VString <$> messageSound' p
  | KcallSound => VString <$> callSound' p
  end.

(** The value of the most recent update of [ps] (applied left to right)
    that mentions [k]. *)
Fixpoint lastMention (k : Key) (ps : list Partial) : option Value :=
  match ps with
  | [] => None
  | p :: ps' =>
      match lastMention k ps' with
      | Some v => Some v
      | None => mentions k p
      end
  end.

(** A JSON object whose members are booleans and strings.
    [localStorage] holds text; the text [JSON.stringify] writes is
    identified with the object it denotes, members in writing order. *)
Inductive jvalue :=
| JBool (b : bool)
| JString (s : string).

Definition json : Type := list (string * jvalue).

(** [JSON.stringify(settings)] *)
Definition JSON_stringify (s : NotificationPreferences) : json :=
  [ ("sound", JBool (sound s));
    ("vibration", JBool (vibration s));
    ("background", JBool (background s));
    ("preview", JBool (preview s));
    ("messageSound", JString (messageSound s));
    ("callSound", JString (callSound s)) ].

(** The member of a JSON object under a key. *)
Fixpoint member (k : string) (ms : json) : option jvalue :=
  match ms with
  | [] => None
  | (k', v) :: ms' => if String.eqb k k' then Some v else member k ms'
  end.

Definition keyName (k : Key) : string :=
  match k with
  | Ksound => "sound"
  | Kvibration => "vibration"
  | Kbackground => "background"
  | Kpreview => "preview"
  | KmessageSound => "messageSound"
  | KcallSound => "callSound"
  end.

Definition toJson (v : Value) : jvalue :=
  match v with
  | VBool b => JBool b
  | VString s => JString s
  end.

(** [JSON.parse] keeps, of several members with one name, the last. *)
Fixpoint lastMember (k : string) (ms : json) : option jvalue :=
  match ms with
  | [] => None
  | (k', v) :: ms' =>
      match lastMember k ms' with
      | Some v' => Some v'
      | None => if String.eqb k k' then Some v else None
      end
  end.

Definition boolMember (k : string) (ms : json) : option bool :=
  match lastMember k ms with
  | Some (JBool b) => Some b
  | _ => None
  end.

Definition stringMember (k : string) (ms : json) : option string :=
  match lastMember k ms with
  | Some (JString s) => Some s
  | _ => None
  end.

(** [JSON.parse(savedSettings)], read as a [Partial]: the members the
    interface names, at their declared types. The source spreads whatever
    the stored object holds; an object with other members, or with a
    member of another type under one of the six names, has no counterpart
    in [NotificationPreferences] and is outside this reading. *)
Definition JSON_parse (j : json) : Partial :=
  {| sound' := boolMember "sound" j;
     vibration' := boolMember "vibration" j;
     background' := boolMember "background" j;
     preview' := boolMember "preview" j;
     messageSound' := stringMember "messageSound" j;
     callSound' := stringMember "callSound" j |}.

Definition sameKind (v v' : Value) : Prop :=
  match v, v' with
  | VBool _, VBool _ | VString _, VString _ => True
  | _, _ => False
  end.

End Preferences.

(** ** [src/services/NotificationService.ts]: the dispatcher *)

Module NotificationService.
Import Preferences.

(** The two [HTMLAudioElement]s of the service. *)
Inductive SoundKind := MessageSound | CallSound.

Record Audio := {
  src : string;
  preload : string;
}.

(** An entry of [LocalNotifications.schedule({ notifications: [...] })];
    [attachments] is [null] at every call site and is left out. *)
Record LocalNotification := {
  ln_title : string;
  ln_body : string;
  ln_id : Z;
  ln_sound : option string;
  ln_actionTypeId : string;
  ln_extra : option (gmap string string);
}.

(** The [CustomEvent] given to [window.dispatchEvent]; the [handler]
    closure of the action is represented by the location it assigns to
    [window.location.href]. *)
Record CustomEvent := {
  event_name : string;
  detail_type : string;
  detail_title : string;
  detail_message : string;
  action_label : string;
  action_href : string;
}.

(** Calls into collaborators, as logged. *)
Inductive Effect :=
| console_error (msg : string) (err : Js.error)
| console_warn (msg : string)
| Notification_requestPermission
| getMessaging
| getToken
| onMessage
| PushNotifications_checkPermissions
| PushNotifications_requestPermissions
| PushNotifications_register
| PushNotifications_addListener (eventName : string)
| Audio_play (which : SoundKind) (source : string)
| Haptics_impact (style : string)
| LocalNotifications_schedule (n : LocalNotification)
| new_Notification (title : string) (options : gmap string string)
| navigator_vibrate (ms : Z)
| window_dispatchEvent (e : CustomEvent).

(** What the host answers during one invocation of a method. *)
Record Env := {
  isPlatform_mobile : bool;
  document_hidden : bool;
  Notification_in_window : bool;
  Notification_permission : string;
  vibrate_in_navigator : bool;
  Date_now : Z;
  requestPermission_result : outcome string;
  getMessaging_result : outcome unit;
  getToken_result : outcome string;
  onMessage_result : outcome unit;
  checkPermissions_result : outcome string;
  requestPermissions_result : outcome string;
  register_result : outcome unit;
  addListener_result : outcome unit;
  play_result : SoundKind → outcome unit;
  impact_result : outcome unit;
  schedule_result : LocalNotification → outcome unit;
  new_Notification_result : string → outcome unit;
  vibrate_result : outcome unit;
}.

(** The fields of the class instance. *)
Record Service := {
  initialized : bool;
  messageSound_el : Audio;
  callSound_el : Audio;
  hasPermission : bool;
  settings : NotificationPreferences;
  messaging : bool;
}.

Record World := {
  this : Service;
  localStorage : gmap string json;
  effects : list Effect;
}.

(** The instance the constructor builds from the settings that
    [loadSettings()] returned. *)
Definition construct (loaded : NotificationPreferences) : Service :=
  {| initialized := false;
     messageSound_el := {| src := messageSound loaded; preload := "auto" |};
     callSound_el := {| src := callSound loaded; preload := "auto" |};
     hasPermission := false;
     settings := loaded;
     messaging := false |}.

Definition update_this (f : Service → Service) : M World unit :=
  modify (λ w, {| this := f (this w); localStorage := localStorage w; effects := effects w |}).

Definition set_initialized (b : bool) : M World unit :=
  update_this (λ s, {| initialized := b; messageSound_el := messageSound_el s;
                       callSound_el := callSound_el s; hasPermission := hasPermission s;
                       settings := settings s; messaging := messaging s |}).

Definition set_hasPermission (b : bool) : M World unit :=
  update_this (λ s, {| initialized := initialized s; messageSound_el := messageSound_el s;
                       callSound_el := callSound_el s; hasPermission := b;
                       settings := settings s; messaging := messaging s |}).

Definition set_settings (p : NotificationPreferences) : M World unit :=
  update_this (λ s, {| initialized := initialized s; messageSound_el := messageSound_el s;
                       callSound_el := callSound_el s; hasPermission := hasPermission s;
                       settings := p; messaging := messaging s |}).

Definition set_messaging : M World unit :=
  update_this (λ s, {| initialized := initialized s; messageSound_el := messageSound_el s;
                       callSound_el := callSound_el s; hasPermission := hasPermission s;
                       settings := settings s; messaging := true |}).

Definition set_messageSound_src (u : string) : M World unit :=
  update_this (λ s, {| initialized := initialized s;
                       messageSound_el := {| src := u; preload := preload (messageSound_el s) |};
                       callSound_el := callSound_el s; hasPermission := hasPermission s;
                       settings := settings s; messaging := messaging s |}).

Definition set_callSound_src (u : string) : M World unit :=
  update_this (λ s, {| initialized := initialized s; messageSound_el := messageSound_el s;
                       callSound_el := {| src := u; preload := preload (callSound_el s) |};
                       hasPermission := hasPermission s;
                       settings := settings s; messaging := messaging s |}).

Definition localStorage_setItem (k : string) (v : json) : M World unit :=
  modify (λ w, {| this := this w; localStorage := <[k := v]> (localStorage w);
                  effects := effects w |}).

(** A call into a collaborator: it is logged, then completes as the
    host decides. *)
Definition perform {A} (e : Effect) (r : outcome A) : M World A :=
  λ w, (r, {| this := this w; localStorage := localStorage w; effects := effects w ++ [e] |}).

Definition this_ : M World Service :=
  λ w, (Ok (this w), w).

(** [saveSettings(settings)] *)
Definition saveSettings (p : Partial) : M World unit :=
  let! s := this_ in
  set_settings (spread (settings s) p) ;;;
  let! s := this_ in
  localStorage_setItem "notificationSettings" (JSON_stringify (settings s)) ;;;
  when (truthy (messageSound' p))
    (set_messageSound_src (default EmptyString (messageSound' p))) ;;;
  when (truthy (callSound' p))
    (set_callSound_src (default EmptyString (callSound' p))).

(** [getSettings()] *)
Definition getSettings : M World NotificationPreferences :=
  let! s := this_ in ret (settings s).

(** [initializeWebNotifications()] *)
Definition initializeWebNotifications (env : Env) : M World unit :=
  try_catch
    (when (negb (Notification_in_window env))
       (throw "This browser does not support notifications") ;;;
     let! permission := perform Notification_requestPermission (requestPermission_result env) in
     set_hasPermission (String.eqb permission "granted") ;;;
     let! s := this_ in
     when (hasPermission s)
       (perform getMessaging (getMessaging_result env) ;;;
        set_messaging ;;;
        let! token := perform getToken (getToken_result env) in
        perform onMessage (onMessage_result env)))
    (λ error,
       perform (console_error "Error initializing web notifications:" error) (Ok tt) ;;;
       throw error).

(** [initializeMobileNotifications()] *)
Definition initializeMobileNotifications (env : Env) : M World unit :=
  try_catch
    (let! permissionStatus :=
       perform PushNotifications_checkPermissions (checkPermissions_result env) in
     (if negb (String.eqb permissionStatus "granted") then
        let! permission :=
          perform PushNotifications_requestPermissions (requestPermissions_result env) in
        set_hasPermission (String.eqb permission "granted")
      else set_hasPermission true) ;;;
     let! s := this_ in
     when (hasPermission s)
       (perform PushNotifications_register (register_result env) ;;;
        perform (PushNotifications_addListener "pushNotificationReceived")
          (addListener_result env)))
    (λ error,
       perform (console_error "Error initializing mobile notifications:" error) (Ok tt) ;;;
       throw error).

(** The platform-specific setup that [initialize()] selects. *)
Definition platformSetup (env : Env) : M World unit :=
  if isPlatform_mobile env
  then initializeMobileNotifications env
  else initializeWebNotifications env.

(** [initialize()] *)
Definition initialize (env : Env) : M World unit :=
  let! s := this_ in
  if initialized s then ret tt
  else
    try_catch
      (platformSetup env ;;;
       set_initialized true)
      (λ error,
         perform (console_error "Error initializing notifications:" error) (Ok tt) ;;;
         throw error).

(** [playNotificationSound(isCall)]: [sound.currentTime = 0] rewinds the
    chosen element, then [sound.play()] is awaited. *)
Definition playNotificationSound (env : Env) (isCall : bool) : M World unit :=
  try_catch
    (let! s := this_ in
     let which := if isCall then CallSound else MessageSound in
     let sound := if isCall then callSound_el s else messageSound_el s in
     perform (Audio_play which (src sound)) (play_result env which))
    (λ error,
       perform (console_error "Error playing notification sound:" error) (Ok tt)).

(** [MessagePayload] of the web push transport. *)
Record NotificationPayload := {
  np_title : option string;
  np_body : option string;
}.

Record MessagePayload := {
  payload_notification : option NotificationPayload;
  payload_data : option (gmap string string);
}.

(** [data?.type === 'call'] *)
Definition isCallType (data : option (gmap string string)) : bool :=
  match data ≫= (λ m : gmap string string, m !! "type") with
  | Some t => String.eqb t "call"
  | None => false
  end.

(** [this.settings.sound ? 'notification.wav' : null] *)
Definition soundRef (p : NotificationPreferences) : option string :=
  if sound p then Some "notification.wav" else None.

(** [handleNotification(payload)] *)
Definition handleNotification (env : Env) (payload : MessagePayload) : M World unit :=
  let! s := this_ in
  if negb (background (settings s)) && document_hidden env then ret tt
  else
    (let! s := this_ in
     when (sound (settings s))
       (playNotificationSound env (isCallType (payload_data payload)))) ;;;
    (let! s := this_ in
     when (vibration (settings s) && isPlatform_mobile env)
       (perform (Haptics_impact "Medium") (impact_result env))) ;;;
    (let! s := this_ in
     when (preview (settings s) && hasPermission s)
       (let title := payload_notification payload ≫= np_title in
        let body := payload_notification payload ≫= np_body in
        if negb (document_hidden env) then
          let n := {| ln_title := or_string title "Nuovo messaggio";
                      ln_body := or_string body EmptyString;
                      ln_id := Date_now env;
                      ln_sound := soundRef (settings s);
                      ln_actionTypeId := EmptyString;
                      ln_extra := None |} in
          perform (LocalNotifications_schedule n) (schedule_result env n)
        else
          let t := or_string title "Nuovo messaggio" in
          perform
            (new_Notification t
               {[ "body" := or_string body EmptyString; "icon" := "/logo.svg" ]})
            (new_Notification_result env t))).

(** The [notification] object of the mobile push plugin. *)
Record MobileNotification := {
  mn_foreground : bool;
  mn_title : option string;
  mn_body : option string;
  mn_data : option (gmap string string);
}.

(** [handleMobileNotification(notification)] *)
Definition handleMobileNotification (env : Env) (notification : MobileNotification)
    : M World unit :=
  let! s := this_ in
  if negb (background (settings s)) && negb (mn_foreground notification) then ret tt
  else
    (let! s := this_ in
     when (sound (settings s))
       (playNotificationSound env (isCallType (mn_data notification)))) ;;;
    (let! s := this_ in
     when (vibration (settings s))
       (perform (Haptics_impact "Medium") (impact_result env))) ;;;
    (let! s := this_ in
     when (preview (settings s))
       (let n := {| ln_title := or_string (mn_title notification) "Nuovo messaggio";
                    ln_body := or_string (mn_body notification) EmptyString;
                    ln_id := Date_now env;
                    ln_sound := soundRef (settings s);
                    ln_actionTypeId := EmptyString;
                    ln_extra := mn_data notification |} in
        perform (LocalNotifications_schedule n) (schedule_result env n))).

Record ServiceRef := {
  service_id : string;
  service_name : string;
}.

Record ServiceMatch := {
  match_id : string;
  service1 : ServiceRef;
  service2 : ServiceRef;
}.

Definition dquote : string := String "034"%char EmptyString.

Definition matchTitle : string := "Nuovo Match Servizio".

Definition matchBody (m : ServiceMatch) : string :=
  "Il tuo servizio " +:+ dquote +:+ service_name (service1 m) +:+ dquote
    +:+ " ha un potenziale match!".

Definition matchData (m : ServiceMatch) : gmap string string :=
  {[ "type" := "service_match";
     "matchId" := match_id m;
     "service1Id" := service_id (service1 m);
     "service2Id" := service_id (service2 m) ]}.

Definition matchLocalNotification (env : Env) (s : Service) (m : ServiceMatch)
    : LocalNotification :=
  {| ln_title := matchTitle;
     ln_body := matchBody m;
     ln_id := Date_now env;
     ln_sound := soundRef (settings s);
     ln_actionTypeId := "service_match";
     ln_extra := Some (matchData m) |}.

Definition matchEvent (m : ServiceMatch) : CustomEvent :=
  {| event_name := "showNotification";
     detail_type := "info";
     detail_title := matchTitle;
     detail_message := matchBody m;
     action_label := "Visualizza";
     action_href := "/services/matches/" +:+ match_id m |}.

(** [sendServiceMatchNotification(match)] *)
Definition sendServiceMatchNotification (env : Env) (m : ServiceMatch) : M World unit :=
  try_catch
    ((let! s := this_ in
      when (preview (settings s) && hasPermission s)
        (let n := matchLocalNotification env s m in
         perform (LocalNotifications_schedule n) (schedule_result env n))) ;;;
     perform (window_dispatchEvent (matchEvent m)) (Ok tt))
    (λ error,
       perform (console_error "Error sending service match notification:" error) (Ok tt)).

(** [requestPermission()] *)
Definition requestPermission (env : Env) : M World bool :=
  try_catch
    (if negb (Notification_in_window env) then
       perform (console_warn "Questo browser non supporta le notifiche") (Ok tt) ;;;
       ret false
     else
       let! permission :=
         perform Notification_requestPermission (requestPermission_result env) in
       ret (String.eqb permission "granted"))
    (λ error,
       perform (console_error "Errore nella richiesta dei permessi:" error) (Ok tt) ;;;
       ret false).

(** [showNotification(title, options)]: the result tells whether a
    notification object is returned. *)
Definition showNotification (env : Env) (title : string) (options : gmap string string)
    : M World bool :=
  try_catch
    (if negb (Notification_in_window env) then ret false
     else if String.eqb (Notification_permission env) "granted" then
       perform
         (new_Notification title
            (options ∪ {[ "icon" := "/icon-192x192.png"; "badge" := "/icon-192x192.png" ]}))
         (new_Notification_result env title) ;;;
       when (vibrate_in_navigator env)
         (perform (navigator_vibrate 200) (vibrate_result env)) ;;;
       ret true
     else ret false)
    (λ error,
       perform (console_error "Errore nell'invio della notifica:" error) (Ok tt) ;;;
       ret false).

(** The entry points of the service: its public methods and the two
    listeners that [initialize()] registers. *)
Inductive Call :=
| CallInitialize
| CallSaveSettings (p : Partial)
| CallGetSettings
| CallHandleNotification (payload : MessagePayload)
| CallHandleMobileNotification (notification : MobileNotification)
| CallSendServiceMatchNotification (m : ServiceMatch)
| CallRequestPermission
| CallShowNotification (title : string) (options : gmap string string).

Definition discard {A} (m : M World A) : M World unit :=
  let! _ := m in ret tt.

Definition invoke (env : Env) (c : Call) : M World unit :=
  match c with
  | CallInitialize => initialize env
  | CallSaveSettings p => saveSettings p
  | CallGetSettings => discard getSettings
  | CallHandleNotification payload => handleNotification env payload
  | CallHandleMobileNotification n => handleMobileNotification env n
  | CallSendServiceMatchNotification m => sendServiceMatchNotification env m
  | CallRequestPermission => discard (requestPermission env)
  | CallShowNotification title options => discard (showNotification env title options)
  end.

(** A history of invocations, each with the host's answers; an
    invocation that throws leaves its mutations in place and the next
    one proceeds. *)
Fixpoint run (cs : list (Env * Call)) (w : World) : World :=
  match cs with
  | [] => w
  | (env, c) :: cs' => run cs' (snd (invoke env c w))
  end.

(** Successive [saveSettings] calls. *)
Fixpoint saveAll (ps : list Partial) (w : World) : World :=
  match ps with
  | [] => w
  | p :: ps' => saveAll ps' (snd (saveSettings p w))
  end.

(** The effects of [w'] that were appended after [w]. *)
Definition newEffects (w w' : World) : list Effect :=
  drop (length (effects w)) (effects w').

Definition isSoundEffect (e : Effect) : bool :=
  match e with Audio_play _ _ => true | _ => false end.

Definition isHapticEffect (e : Effect) : bool :=
  match e with Haptics_impact _ => true | _ => false end.

Definition isPreviewEffect (e : Effect) : bool :=
  match e with
  | LocalNotifications_schedule _ | new_Notification _ _ => true
  | _ => false
  end.

Definition isDispatchEffect (e : Effect) : bool :=
  match e with window_dispatchEvent _ => true | _ => false end.

(** The sound, haptic and preview effects among those appended. *)
Definition soundsPlayed (w w' : World) : list Effect :=
  List.filter isSoundEffect (newEffects w w').

Definition hapticsFired (w w' : World) : list Effect :=
  List.filter isHapticEffect (newEffects w w').

Definition previewsShown (w w' : World) : list Effect :=
  List.filter isPreviewEffect (newEffects w w').

(** The background gate lets the event through. *)
Definition passesWebGate (env : Env) (w : World) : Prop :=
  negb (background (settings (this w))) && document_hidden env = false.

Definition passesMobileGate (notification : MobileNotification) (w : World) : Prop :=
  negb (background (settings (this w))) && negb (mn_foreground notification) = false.

(** A computation that leaves the [initialized] flag as it found it. *)
Definition keepsInitialized {A} (m : M World A) : Prop :=
  ∀ w, initialized (this (snd (m w))) = initialized (this w).

(** The [type] entry of an event's data, when there is one. *)
Definition dataType (data : option (gmap string string)) : option string :=
  data ≫= (λ m : gmap string string, m !! "type").

(** What the specification says of [sendServiceMatchNotification]: it
    does not raise, and the UI event is dispatched, also when the
    scheduling collaborator throws. *)
Definition serviceMatchAlwaysDispatches (env : Env) (m : ServiceMatch) (w : World) : Prop :=
  fst (sendServiceMatchNotification env m w) = Ok tt ∧
  window_dispatchEvent (matchEvent m)
    ∈ newEffects w (snd (sendServiceMatchNotification env m w)).

(** [loadSettings()]; the stored text is never empty, so it is truthy
    whenever it is there. *)
Definition loadSettings (storage : gmap string json) : NotificationPreferences :=
  match storage !! "notificationSettings" with
  | Some savedSettings => spread DEFAULT_SETTINGS (JSON_parse savedSettings)
  | None => DEFAULT_SETTINGS
  end.

(** The host [env] with another answer of [sound.play()]. *)
Definition withPlayResult (r : SoundKind → outcome unit) (env : Env) : Env :=
  {| isPlatform_mobile := isPlatform_mobile env;
     document_hidden := document_hidden env;
     Notification_in_window := Notification_in_window env;
     Notification_permission := Notification_permission env;
     vibrate_in_navigator := vibrate_in_navigator env;
     Date_now := Date_now env;
     requestPermission_result := requestPermission_result env;
     getMessaging_result := getMessaging_result env;
     getToken_result := getToken_result env;
     onMessage_result := onMessage_result env;
     checkPermissions_result := checkPermissions_result env;
     requestPermissions_result := requestPermissions_result env;
     register_result := register_result env;
     addListener_result := addListener_result env;
     play_result := r;
     impact_result := impact_result env;
     schedule_result := schedule_result env;
     new_Notification_result := new_Notification_result env;
     vibrate_result := vibrate_result env |}.

(** Each audio element points at the sound the settings name. *)
Definition audioFollowsSettings (s : Service) : Prop :=
  src (messageSound_el s) = messageSound (settings s) ∧
  src (callSound_el s) = callSound (settings s).

(** A call that, if it saves settings, does not name an empty sound. *)
Definition namesNoEmptySound (c : Call) : Prop :=
  match c with
  | CallSaveSettings p =>
      messageSound' p ≠ Some EmptyString ∧ callSound' p ≠ Some EmptyString
  | _ => True
  end.

(** An entry point that does not write the fields of the service. *)
Definition isObserver (c : Call) : bool :=
  match c with
  | CallInitialize | CallSaveSettings _ => false
  | _ => true
  end.

(** The permission probe every platform setup opens with: the browser's
    prompt on the web path, the permission check on the mobile path. *)
Definition isSetupProbe (e : Effect) : bool :=
  match e with
  | Notification_requestPermission | PushNotifications_checkPermissions => true
  | _ => false
  end.

(** How many platform setups were run between [w] and [w']. *)
Definition setupRuns (w w' : World) : nat :=
  length (List.filter isSetupProbe (newEffects w w')).

(** Further [initialize()] calls, one per host answer. *)
Definition initializeAgain (envs : list Env) : list (Env * Call) :=
  (λ env, (env, CallInitialize)) <$> envs.

End NotificationService.

(** * Sample data *)

Module Samples.
Import ChatList.

Definition me : string := "u-me".

Definition groupDoc (i n : string) (lastMessageTime lastInteraction : option Z) : ChatDoc :=
  {| doc_id := i;
     doc_data := {| data_isGroup := true;
                    data_name := n;
                    data_lastMessage := Some "Hello there all";
                    data_lastMessageTime := lastMessageTime;
                    data_unreadCount := Some {[ me := 2 ]};
                    data_participants := Some [me; "u-bob"; "u-eve"];
                    data_lastInteraction := lastInteraction |} |}.

Definition directDoc (i : string) (ps : option (list string)) : ChatDoc :=
  {| doc_id := i;
     doc_data := {| data_isGroup := false;
                    data_name := EmptyString;
                    data_lastMessage := Some "Ciao";
                    data_lastMessageTime := Some 1500;
                    data_unreadCount := None;
                    data_participants := ps;
                    data_lastInteraction := None |} |}.

Definition docA : ChatDoc := groupDoc "A" "Alpha" (Some 900) (Some 1000).
Definition docB : ChatDoc := groupDoc "B" "Beta" (Some 1900) (Some 2000).
Definition docC : ChatDoc := groupDoc "C" "Gamma" None None.
Definition docBob : ChatDoc := directDoc "D" (Some [me; "u-bob"]).
Definition docBroken : ChatDoc := directDoc "E" None.
Definition docSelf : ChatDoc := directDoc "S" (Some [me; me]).

Definition bob : UserData :=
  {| user_displayName := Some "Bob";
     user_photoURL := None;
     user_status := Some "online";
     user_lastSeen := Some 1400;
     user_isAnonymous := None |}.

(** A host in which no profile exists yet. *)
Definition noProfiles : Runtime :=
  {| encodeURIComponent := λ s, s;
     getDoc_users := λ _, Ok None |}.

(** A host in which the profile of ["u-bob"] exists. *)
Definition withBob : Runtime :=
  {| encodeURIComponent := λ s, s;
     getDoc_users := λ p, if String.eqb p "u-bob" then Ok (Some bob) else Ok None |}.

(** A host whose point lookup rejects. *)
Definition offline : Runtime :=
  {| encodeURIComponent := λ s, s;
     getDoc_users := λ _, Throw "FirebaseError: unavailable" |}.

(** ** The dispatcher *)

Import Preferences NotificationService.

(** A host on which every collaborator succeeds. *)
Definition healthy (mobile hidden : bool) : Env :=
  {| isPlatform_mobile := mobile;
     document_hidden := hidden;
     Notification_in_window := true;
     Notification_permission := "granted";
     vibrate_in_navigator := true;
     Date_now := 1700000000000;
     requestPermission_result := Ok "granted";
     getMessaging_result := Ok tt;
     getToken_result := Ok "token";
     onMessage_result := Ok tt;
     checkPermissions_result := Ok "granted";
     requestPermissions_result := Ok "granted";
     register_result := Ok tt;
     addListener_result := Ok tt;
     play_result := λ _, Ok tt;
     impact_result := Ok tt;
     schedule_result := λ _, Ok tt;
     new_Notification_result := λ _, Ok tt;
     vibrate_result := Ok tt |}.

(** The same host with a haptics plugin that rejects. *)
Definition brokenHaptics (mobile hidden : bool) : Env :=
  {| isPlatform_mobile := mobile;
     document_hidden := hidden;
     Notification_in_window := true;
     Notification_permission := "granted";
     vibrate_in_navigator := true;
     Date_now := 1700000000000;
     requestPermission_result := Ok "granted";
     getMessaging_result := Ok tt;
     getToken_result := Ok "token";
     onMessage_result := Ok tt;
     checkPermissions_result := Ok "granted";
     requestPermissions_result := Ok "granted";
     register_result := Ok tt;
     addListener_result := Ok tt;
     play_result := λ _, Ok tt;
     impact_result := Throw "Haptics: not implemented";
     schedule_result := λ _, Ok tt;
     new_Notification_result := λ _, Ok tt;
     vibrate_result := Ok tt |}.

(** The same host with a local-notification scheduler that rejects. *)
Definition brokenScheduler (mobile hidden : bool) : Env :=
  {| isPlatform_mobile := mobile;
     document_hidden := hidden;
     Notification_in_window := true;
     Notification_permission := "granted";
     vibrate_in_navigator := true;
     Date_now := 1700000000000;
     requestPermission_result := Ok "granted";
     getMessaging_result := Ok tt;
     getToken_result := Ok "token";
     onMessage_result := Ok tt;
     checkPermissions_result := Ok "granted";
     requestPermissions_result := Ok "granted";
     register_result := Ok tt;
     addListener_result := Ok tt;
     play_result := λ _, Ok tt;
     impact_result := Ok tt;
     schedule_result := λ _, Throw "LocalNotifications: schedule failed";
     new_Notification_result := λ _, Ok tt;
     vibrate_result := Ok tt |}.

(** A browser without the Notification API. *)
Definition unsupportedBrowser : Env :=
  {| isPlatform_mobile := false;
     document_hidden := false;
     Notification_in_window := false;
     Notification_permission := "default";
     vibrate_in_navigator := false;
     Date_now := 1700000000000;
     requestPermission_result := Ok "granted";
     getMessaging_result := Ok tt;
     getToken_result := Ok "token";
     onMessage_result := Ok tt;
     checkPermissions_result := Ok "granted";
     requestPermissions_result := Ok "granted";
     register_result := Ok tt;
     addListener_result := Ok tt;
     play_result := λ _, Ok tt;
     impact_result := Ok tt;
     schedule_result := λ _, Ok tt;
     new_Notification_result := λ _, Ok tt;
     vibrate_result := Ok tt |}.

(** A browser whose user refuses the permission prompt. *)
Definition deniedPermission : Env :=
  {| isPlatform_mobile := false;
     document_hidden := false;
     Notification_in_window := true;
     Notification_permission := "denied";
     vibrate_in_navigator := true;
     Date_now := 1700000000000;
     requestPermission_result := Ok "denied";
     getMessaging_result := Ok tt;
     getToken_result := Ok "token";
     onMessage_result := Ok tt;
     checkPermissions_result := Ok "prompt";
     requestPermissions_result := Ok "denied";
     register_result := Ok tt;
     addListener_result := Ok tt;
     play_result := λ _, Ok tt;
     impact_result := Ok tt;
     schedule_result := λ _, Ok tt;
     new_Notification_result := λ _, Ok tt;
     vibrate_result := Ok tt |}.

(** A browser that grants the permission but whose push transport
    refuses to hand out a token. *)
Definition noToken : Env :=
  {| isPlatform_mobile := false;
     document_hidden := false;
     Notification_in_window := true;
     Notification_permission := "granted";
     vibrate_in_navigator := true;
     Date_now := 1700000000000;
     requestPermission_result := Ok "granted";
     getMessaging_result := Ok tt;
     getToken_result := Throw "messaging/token-subscribe-failed";
     onMessage_result := Ok tt;
     checkPermissions_result := Ok "granted";
     requestPermissions_result := Ok "granted";
     register_result := Ok tt;
     addListener_result := Ok tt;
     play_result := λ _, Ok tt;
     impact_result := Ok tt;
     schedule_result := λ _, Ok tt;
     new_Notification_result := λ _, Ok tt;
     vibrate_result := Ok tt |}.

(** A freshly constructed service with the default settings. *)
Definition freshWorld : World :=
  {| this := construct DEFAULT_SETTINGS; localStorage := ∅; effects := [] |}.

(** A service with the given settings that holds the permission. *)
Definition permittedWorld (p : NotificationPreferences) : World :=
  {| this := {| initialized := true;
                messageSound_el := {| src := messageSound p; preload := "auto" |};
                callSound_el := {| src := callSound p; preload := "auto" |};
                hasPermission := true;
                settings := p;
                messaging := true |};
     localStorage := ∅;
     effects := [] |}.

Definition quiet : NotificationPreferences :=
  {| sound := true; vibration := true; background := false; preview := true;
     messageSound := "/sounds/message.mp3"; callSound := "/sounds/call.mp3" |}.

Definition callPayload : MessagePayload :=
  {| payload_notification := Some {| np_title := Some "Chiamata"; np_body := None |};
     payload_data := Some {[ "type" := "call" ]} |}.

Definition textPayload : MessagePayload :=
  {| payload_notification := Some {| np_title := None; np_body := Some "Ciao" |};
     payload_data := Some {[ "type" := "message" ]} |}.

Definition mobileCall : MobileNotification :=
  {| mn_foreground := false; mn_title := Some "Chiamata"; mn_body := None;
     mn_data := Some {[ "type" := "call" ]} |}.

Definition aMatch : ServiceMatch :=
  {| match_id := "m42";
     service1 := {| service_id := "s1"; service_name := "Giardinaggio" |};
     service2 := {| service_id := "s2"; service_name := "Potatura" |} |}.

Definition noUpdate : Partial :=
  {| sound' := None; vibration' := None; background' := None; preview' := None;
     messageSound' := None; callSound' := None |}.

Definition muteUpdate : Partial :=
  {| sound' := Some false; vibration' := None; background' := None; preview' := None;
     messageSound' := None; callSound' := None |}.

Definition ringtoneUpdate : Partial :=
  {| sound' := Some true; vibration' := None; background' := None; preview' := None;
     messageSound' := None; callSound' := Some "/sounds/ring.mp3" |}.

End Samples.

(** * Properties of the conversation list *)

Module ChatListFacts.
Import ChatList.

(** ** Snippets *)

Lemma substring_zero_zero (s : string) : substring 0 0 s = EmptyString.
Proof. by destruct s. Qed.

Lemma substring_head (n : nat) (s : string) :
  (n ≤ String.length s)%nat →
  ∃ rest, s = substring 0 n s +:+ rest ∧ String.length (substring 0 n s) = n.
Proof.
  revert s. induction n as [|n IH]; intros s Hn.
  - exists s. by rewrite substring_zero_zero.
  - destruct s as [|a s]; simpl in Hn; [lia|].
    destruct (IH s) as (rest & Hs & Hlen); [lia|].
    exists rest. cbn [substring String.length]. split; [|by rewrite Hlen].
    change (String a s = String a (substring 0 n s +:+ rest)). by rewrite <- Hs.
Qed.

Lemma truncateMessage_short (message : string) :
  (String.length message ≤ 10)%nat → truncateMessage message = message.
Proof.
  intros H. unfold truncateMessage, truncateMessage'.
  destruct (Nat.ltb_spec 10 (String.length message)); [lia | done].
Qed.

Lemma truncateMessage_long (message : string) :
  (10 < String.length message)%nat →
  ∃ head rest,
    message = head +:+ rest ∧ String.length head = 10%nat ∧
    truncateMessage message = head +:+ "...".
Proof.
  intros H. unfold truncateMessage, truncateMessage'.
  destruct (Nat.ltb_spec 10 (String.length message)); [|lia].
  destruct (substring_head 10 message) as (rest & Hs & Hlen); [lia|].
  by exists (substring 0 10 message), rest.
Qed.

(** C8. The snippet function leaves a message of at most 10 characters
    unchanged and maps a longer one to its first 10 characters followed
    by an ellipsis; "Hello there all" becomes "Hello ther...", and any
    5-character message is unchanged. *)
Theorem truncateMessage_spec (message : string) :
  ((String.length message ≤ 10)%nat → truncateMessage message = message) ∧
  ((10 < String.length message)%nat →
     ∃ head rest,
       message = head +:+ rest ∧ String.length head = 10%nat ∧
       truncateMessage message = head +:+ "...") ∧
  truncateMessage "Hello there all" = "Hello ther..." ∧
  (String.length message = 5%nat → truncateMessage message = message).
Proof.
  split; [apply truncateMessage_short|].
  split; [apply truncateMessage_long|].
  split; [reflexivity|].
  intros H. apply truncateMessage_short. lia.
Qed.

Lemma truncateMessage_spec_witness :
  truncateMessage "Hello" = "Hello" ∧
  (∃ head rest,
     "Bentornato a casa" = head +:+ rest ∧ String.length head = 10%nat ∧
     truncateMessage "Bentornato a casa" = head +:+ "...") ∧
  truncateMessage "Hello there all" = "Hello ther...".
Proof.
  split; [apply (truncateMessage_spec "Hello"); reflexivity|].
  split; [apply (truncateMessage_spec "Bentornato a casa"); simpl; lia|].
  apply (truncateMessage_spec "Hello").
Defined.

(** ** The comparator and the sort *)

Lemma sortTime_is_date (a : ChatPreview) : sortTime a = TsDate (sortMillis a).
Proof.
  unfold sortMillis, sortTime.
  destruct (lastInteraction a); [done|]. by destruct (timestamp a).
Qed.

(** Both operands are always [Date]s, so the comparator is the
    difference of the two instants and its sentinel branches are never
    taken. *)
Lemma compareChats_millis (a b : ChatPreview) :
  compareChats a b = sortMillis b - sortMillis a.
Proof. unfold compareChats. by rewrite !sortTime_is_date. Qed.

Lemma sortMillis_lastInteraction (a : ChatPreview) (t : Z) :
  lastInteraction a = Some t → sortMillis a = t.
Proof. intros H. unfold sortMillis, sortTime. by rewrite H. Qed.

Lemma sortMillis_new (a : ChatPreview) (s : string) :
  lastInteraction a = None → timestamp a = TsString s → sortMillis a = 0.
Proof. intros H1 H2. unfold sortMillis, sortTime. by rewrite H1, H2. Qed.

Lemma insert_Permutation {A} (cmp : A → A → Z) (x : A) (l : list A) :
  Permutation (insert cmp x l) (x :: l).
Proof.
  induction l as [|y l IH]; simpl; [done|].
  destruct (cmp x y <=? 0); [done|].
  rewrite IH. apply perm_swap.
Qed.

Lemma sort_Permutation {A} (cmp : A → A → Z) (l : list A) :
  Permutation (sort cmp l) l.
Proof.
  induction l as [|x l IH]; simpl; [done|].
  by rewrite insert_Permutation, IH.
Qed.

Lemma insert_newerFirst (x : ChatPreview) (l : list ChatPreview) :
  Sorted newerFirst l → Sorted newerFirst (insert compareChats x l).
Proof.
  induction l as [|y l IH]; intros Hs; simpl.
  - by repeat constructor.
  - rewrite compareChats_millis.
    destruct (Z.leb_spec (sortMillis y - sortMillis x) 0) as [Hle|Hgt].
    + constructor; [done|]. constructor. unfold newerFirst. lia.
    + apply Sorted_inv in Hs as [Hs Hhd].
      constructor; [by apply IH|].
      destruct l as [|z l]; simpl.
      * constructor. unfold newerFirst. lia.
      * rewrite compareChats_millis.
        destruct (Z.leb_spec (sortMillis z - sortMillis x) 0).
        -- constructor. unfold newerFirst. lia.
        -- constructor. by apply HdRel_inv in Hhd.
Qed.

(** The published order is by sort instant, most recent first. *)
Lemma sortChats_newerFirst (l : list ChatPreview) : Sorted newerFirst (sortChats l).
Proof.
  unfold sortChats. induction l as [|x l IH]; simpl; [constructor|].
  by apply insert_newerFirst.
Qed.

Lemma sortChats_Permutation (l : list ChatPreview) : Permutation (sortChats l) l.
Proof. apply sort_Permutation. Qed.

Lemma sortChats_three (a b c : ChatPreview) :
  sortMillis c < sortMillis a < sortMillis b →
  sortChats [a; b; c] = [b; a; c] ∧ sortChats [a; c; b] = [b; a; c] ∧
  sortChats [b; a; c] = [b; a; c] ∧ sortChats [b; c; a] = [b; a; c] ∧
  sortChats [c; a; b] = [b; a; c] ∧ sortChats [c; b; a] = [b; a; c].
Proof.
  intros H. unfold sortChats. simpl. rewrite !compareChats_millis.
  repeat split;
    repeat (match goal with
            | |- context [?x <=? 0] => destruct (Z.leb_spec x 0); try lia
            end; simpl; rewrite ?compareChats_millis);
    reflexivity.
Qed.

(** ** One aggregation pass *)

Lemma buildChatsList_collect rt uid (docs : list ChatDoc) (acc : list ChatPreview) :
  buildChatsList rt uid docs acc =
  match collectPreviews rt uid docs with
  | Ok l => Ok (acc ++ l)%list
  | Throw e => Throw e
  end.
Proof.
  revert acc. induction docs as [|c docs IH]; intros acc; simpl.
  - by rewrite app_nil_r.
  - destruct (previewsOf rt uid c) as [ps|e]; [|done].
    rewrite IH. destruct (collectPreviews rt uid docs); [|done].
    by rewrite app_assoc.
Qed.

Lemma onNext_ok rt uid docs st (l : list ChatPreview) :
  collectPreviews rt uid docs = Ok l →
  onNext rt uid docs st =
  (Ok tt, {| chats := sortChats l; loading := false; error := None;
             console := console st |}).
Proof.
  intros H. unfold onNext, try_finally, try_catch, Js.bind, lift.
  rewrite buildChatsList_collect, H. reflexivity.
Qed.

Lemma onNext_throw rt uid docs st (e : Js.error) :
  collectPreviews rt uid docs = Throw e →
  onNext rt uid docs st =
  (Ok tt, {| chats := chats st; loading := false;
             error := Some "Errore nel caricamento delle chat";
             console := console st ++ ["Error processing chats:"] |}).
Proof.
  intros H. unfold onNext, try_finally, try_catch, Js.bind, lift.
  rewrite buildChatsList_collect, H. reflexivity.
Qed.

Lemma onNext_published rt uid docs st :
  error (snd (onNext rt uid docs st)) = None →
  ∃ l, collectPreviews rt uid docs = Ok l ∧
       chats (snd (onNext rt uid docs st)) = sortChats l.
Proof.
  destruct (collectPreviews rt uid docs) as [l|e] eqn:H.
  - rewrite (onNext_ok _ _ _ _ _ H). by exists l.
  - by rewrite (onNext_throw _ _ _ _ _ H).
Qed.

Lemma previewsOf_id rt uid c (ps : list ChatPreview) (p : ChatPreview) :
  previewsOf rt uid c = Ok ps → p ∈ ps → id p = doc_id c.
Proof.
  unfold previewsOf. intros H Hp.
  destruct (data_isGroup (doc_data c)).
  - injection H as <-. apply list_elem_of_singleton in Hp as ->. done.
  - destruct (otherParticipant uid (doc_data c)) as [o|]; [|done].
    destruct (truthy o).
    + destruct (getDoc_users rt (default EmptyString o)) as [[u|]|]; [| |done].
      * injection H as <-. apply list_elem_of_singleton in Hp as ->. done.
      * injection H as <-. by apply not_elem_of_nil in Hp.
    + injection H as <-. by apply not_elem_of_nil in Hp.
Qed.

Lemma previewsOf_unresolvable rt uid c :
  unresolvable rt uid c → previewsOf rt uid c = Ok [].
Proof.
  intros [Hg [Hn | (p & Hp & Hl)]]; unfold previewsOf; rewrite Hg.
  - by rewrite Hn.
  - rewrite Hp. simpl. destruct (String.eqb p EmptyString); [done|].
    simpl. by rewrite Hl.
Qed.

Lemma previewsOf_resolvable rt uid c :
  resolvable rt uid c → ∃ userData, previewsOf rt uid c = Ok [directPreview rt uid c userData].
Proof.
  intros (Hg & p & u & Hp & Hne & Hl). exists u.
  unfold previewsOf. rewrite Hg, Hp. simpl.
  apply String.eqb_neq in Hne. rewrite Hne. simpl. by rewrite Hl.
Qed.

Lemma collectPreviews_elem rt uid docs (l : list ChatPreview) (p : ChatPreview) :
  collectPreviews rt uid docs = Ok l →
  p ∈ l ↔ ∃ c ps, c ∈ docs ∧ previewsOf rt uid c = Ok ps ∧ p ∈ ps.
Proof.
  revert l. induction docs as [|c docs IH]; intros l H; simpl in H.
  - injection H as <-. split.
    + intros Hp. by apply not_elem_of_nil in Hp.
    + intros (c & ps & Hc & _). by apply not_elem_of_nil in Hc.
  - destruct (previewsOf rt uid c) as [ps|e] eqn:Hps; [|done].
    destruct (collectPreviews rt uid docs) as [l'|e]; [|done].
    injection H as <-. rewrite elem_of_app, (IH l' eq_refl). split.
    + intros [Hp | (c' & ps' & Hc' & Hps' & Hp)].
      * exists c, ps. split; [left|]; done.
      * exists c', ps'. split; [by right|done].
    + intros (c' & ps' & Hc' & Hps' & Hp).
      apply elem_of_cons in Hc' as [-> | Hc'].
      * left. rewrite Hps in Hps'. by injection Hps' as <-.
      * right. by exists c', ps'.
Qed.

Lemma NoDup_doc_id (docs : list ChatDoc) (c c' : ChatDoc) :
  NoDup (doc_id <$> docs) → c ∈ docs → c' ∈ docs → doc_id c = doc_id c' → c = c'.
Proof.
  induction docs as [|d docs IH]; intros Hnd Hc Hc' Heq.
  - by apply not_elem_of_nil in Hc.
  - rewrite fmap_cons in Hnd. apply NoDup_cons in Hnd as [Hd Hnd].
    apply elem_of_cons in Hc as [-> | Hc]; apply elem_of_cons in Hc' as [-> | Hc'].
    + done.
    + exfalso. apply Hd. rewrite Heq. by apply list_elem_of_fmap_2.
    + exfalso. apply Hd. rewrite <- Heq. by apply list_elem_of_fmap_2.
    + by apply IH.
Qed.

Lemma sortChats_elem (l : list ChatPreview) (p : ChatPreview) :
  p ∈ sortChats l ↔ p ∈ l.
Proof. by rewrite (sortChats_Permutation l). Qed.

(** C5. In a pass that publishes, a one-to-one record whose counterpart
    profile cannot be resolved (no counterpart identifier, or a lookup
    that finds no profile) has no preview in the published list; on a
    later snapshot in which the profile is found, it has one. *)
Theorem unresolved_conversation_absent_until_resolvable
    (uid : string) (rt1 rt2 : Runtime) (docs1 docs2 : list ChatDoc)
    (c1 c2 : ChatDoc) (st : HookState) :
  c1 ∈ docs1 → NoDup (doc_id <$> docs1) → unresolvable rt1 uid c1 →
  error (snd (onNext rt1 uid docs1 st)) = None →
  c2 ∈ docs2 → doc_id c2 = doc_id c1 → resolvable rt2 uid c2 →
  error (snd (onNext rt2 uid docs2 (snd (onNext rt1 uid docs1 st)))) = None →
  (doc_id c1 ∉ id <$> chats (snd (onNext rt1 uid docs1 st))) ∧
  (doc_id c1 ∈ id <$> chats (snd (onNext rt2 uid docs2 (snd (onNext rt1 uid docs1 st))))).
Proof.
  intros Hc1 Hnd Hun Hok1 Hc2 Hid Hres Hok2.
  apply onNext_published in Hok1 as (l1 & Hl1 & ->).
  apply onNext_published in Hok2 as (l2 & Hl2 & ->).
  split.
  - intros Hin. apply list_elem_of_fmap in Hin as (p & Hp & Hin).
    rewrite sortChats_elem in Hin.
    apply (proj1 (collectPreviews_elem _ _ _ _ _ Hl1)) in Hin as (c & ps & Hc & Hps & Hin).
    pose proof (previewsOf_id _ _ _ _ _ Hps Hin) as Hpid.
    assert (c = c1) as -> by (eapply NoDup_doc_id; eauto; congruence).
    rewrite (previewsOf_unresolvable _ _ _ Hun) in Hps. injection Hps as <-.
    by apply not_elem_of_nil in Hin.
  - destruct (previewsOf_resolvable _ _ _ Hres) as (u & Hps).
    rewrite <- Hid.
    apply list_elem_of_fmap. exists (directPreview rt2 uid c2 u). split; [done|].
    rewrite sortChats_elem. apply (proj2 (collectPreviews_elem _ _ _ _ _ Hl2)).
    exists c2, [directPreview rt2 uid c2 u]. split_and!; [done..|].
    apply list_elem_of_singleton. done.
Qed.

Lemma unresolved_conversation_witness :
  (Samples.docBob.(doc_id) ∉
     id <$> chats (snd (onNext Samples.noProfiles Samples.me
                          [Samples.docA; Samples.docBob] initialState))) ∧
  (Samples.docBob.(doc_id) ∈
     id <$> chats (snd (onNext Samples.withBob Samples.me [Samples.docBob; Samples.docA]
                     (snd (onNext Samples.noProfiles Samples.me
                             [Samples.docA; Samples.docBob] initialState))))).
Proof.
  apply (unresolved_conversation_absent_until_resolvable
           Samples.me Samples.noProfiles Samples.withBob
           [Samples.docA; Samples.docBob] [Samples.docBob; Samples.docA]
           Samples.docBob Samples.docBob initialState).
  - apply list_elem_of_further, list_elem_of_here.
  - simpl. apply NoDup_cons. split; [|apply NoDup_singleton].
    intros H%list_elem_of_singleton. discriminate H.
  - split; [reflexivity|]. right. exists "u-bob". split; reflexivity.
  - reflexivity.
  - apply list_elem_of_here.
  - reflexivity.
  - split; [reflexivity|]. exists "u-bob", Samples.bob.
    split; [reflexivity|]. split; [discriminate | reflexivity].
  - reflexivity.
Defined.

(** ** Published order *)

Lemma Permutation_three {A} (a b c : A) (l : list A) :
  Permutation [a; b; c] l →
  l = [a; b; c] ∨ l = [a; c; b] ∨ l = [b; a; c] ∨
  l = [b; c; a] ∨ l = [c; a; b] ∨ l = [c; b; a].
Proof.
  intros Hperm. pose proof (Permutation_length Hperm) as Hlen.
  destruct l as [|x [|y [|z [|]]]]; simpl in Hlen; try lia.
  assert (a ∈ [x; y; z]) as Ha by (rewrite <- Hperm; apply list_elem_of_here).
  rewrite !elem_of_cons in Ha. destruct Ha as [->|[->|[->|Ha]]].
  - apply Permutation_cons_inv, Permutation_length_2_inv in Hperm.
    intuition congruence.
  - rewrite (perm_swap y x [z]) in Hperm.
    apply Permutation_cons_inv, Permutation_length_2_inv in Hperm.
    intuition congruence.
  - assert (Permutation [x; y; z] (z :: [x; y])) as Hrot.
    { change [x; y; z] with ([x; y] ++ [z]). apply Permutation_app_comm. }
    rewrite Hrot in Hperm.
    apply Permutation_cons_inv, Permutation_length_2_inv in Hperm.
    intuition congruence.
  - by apply not_elem_of_nil in Ha.
Qed.

Lemma collectPreviews_groups rt uid (docs : list ChatDoc) :
  Forall (λ c, data_isGroup (doc_data c) = true) docs →
  collectPreviews rt uid docs = Ok (groupPreview rt uid <$> docs).
Proof.
  induction 1 as [|c docs Hc _ IH]; simpl; [done|].
  unfold previewsOf. by rewrite Hc, IH.
Qed.

(** C1. What the code publishes for conversations A (last interaction
    t1), B (last interaction t2 > t1) and a brand-new C (no interaction
    instant, no message time, so the "Nuovo" sentinel), with instants
    after the epoch: the order is [B, A, C], whatever the order of the
    snapshot. The sentinel conversation is sorted as the instant 0 and
    comes last, not first. *)
Theorem published_order_new_conversation_last
    (rt : Runtime) (uid : string) (st : HookState) (dA dB dC : ChatDoc) (t1 t2 : Z) :
  data_isGroup (doc_data dA) = true →
  data_isGroup (doc_data dB) = true →
  data_isGroup (doc_data dC) = true →
  data_lastInteraction (doc_data dA) = Some t1 →
  data_lastInteraction (doc_data dB) = Some t2 →
  data_lastInteraction (doc_data dC) = None →
  data_lastMessageTime (doc_data dC) = None →
  0 < t1 < t2 →
  timestamp (groupPreview rt uid dC) = TsString "Nuovo" ∧
  ∀ docs, Permutation docs [dA; dB; dC] →
    id <$> chats (snd (onNext rt uid docs st)) = [doc_id dB; doc_id dA; doc_id dC].
Proof.
  intros HgA HgB HgC HA HB HC HCt Ht.
  assert (timestamp (groupPreview rt uid dC) = TsString "Nuovo") as HN.
  { simpl. unfold timestampOf. by rewrite HCt. }
  split; [done|].
  assert (sortMillis (groupPreview rt uid dC) < sortMillis (groupPreview rt uid dA)
          < sortMillis (groupPreview rt uid dB)) as Hkeys.
  { rewrite (sortMillis_lastInteraction (groupPreview rt uid dA) t1) by exact HA.
    rewrite (sortMillis_lastInteraction (groupPreview rt uid dB) t2) by exact HB.
    rewrite (sortMillis_new (groupPreview rt uid dC) "Nuovo") by (exact HC || exact HN).
    lia. }
  destruct (sortChats_three _ _ _ Hkeys) as (H1 & H2 & H3 & H4 & H5 & H6).
  intros docs Hperm.
  assert (Forall (λ c, data_isGroup (doc_data c) = true) docs) as Hall.
  { rewrite Hperm. by repeat constructor. }
  rewrite (onNext_ok _ _ _ _ _ (collectPreviews_groups rt uid docs Hall)). simpl.
  assert (docs = [dA; dB; dC] ∨ docs = [dA; dC; dB] ∨ docs = [dB; dA; dC] ∨
          docs = [dB; dC; dA] ∨ docs = [dC; dA; dB] ∨ docs = [dC; dB; dA]) as Hcases.
  { by apply Permutation_three. }
  destruct Hcases as [->|[->|[->|[->|[->| ->]]]]]; simpl;
    rewrite ?H1, ?H2, ?H3, ?H4, ?H5, ?H6; reflexivity.
Qed.

Lemma published_order_witness :
  timestamp (groupPreview Samples.noProfiles Samples.me Samples.docC) = TsString "Nuovo" ∧
  id <$> chats (snd (onNext Samples.noProfiles Samples.me
                       [Samples.docA; Samples.docB; Samples.docC] initialState))
  = ["B"; "A"; "C"].
Proof.
  destruct (published_order_new_conversation_last
              Samples.noProfiles Samples.me initialState
              Samples.docA Samples.docB Samples.docC 1000 2000) as [HN Horder];
    [reflexivity | reflexivity | reflexivity | reflexivity | reflexivity
    | reflexivity | reflexivity | lia |].
  split; [exact HN|].
  apply (Horder [Samples.docA; Samples.docB; Samples.docC]).
  apply Permutation_refl.
Defined.

(** ** Failed deliveries *)

Lemma onError_spec (err : Js.error) (st : HookState) :
  onError err st =
  (Ok tt, {| chats := chats st; loading := false;
             error := Some "Errore nella sincronizzazione delle chat";
             console := console st ++ ["Error in chat subscription:"] |}).
Proof. reflexivity. Qed.

(** C10. When a snapshot's processing throws, or the subscription
    reports a transport error, the callback returns normally, the
    published list is the one published before, the error indicator is
    set and the loading flag is cleared. No delivery publishes anything
    but the previous list or the sorted result of a whole snapshot. *)
Theorem failed_delivery_keeps_published_list
    (uid : string) (d : Delivery) (st : HookState) :
  (deliveryFails uid d →
     fst (deliver uid d st) = Ok tt ∧
     chats (snd (deliver uid d st)) = chats st ∧
     is_Some (error (snd (deliver uid d st))) ∧
     loading (snd (deliver uid d st)) = false) ∧
  (chats (snd (deliver uid d st)) = chats st ∨
   ∃ rt docs l, d = Snapshot rt docs ∧ buildChatsList rt uid docs [] = Ok l ∧
                chats (snd (deliver uid d st)) = sortChats l ∧
                error (snd (deliver uid d st)) = None).
Proof.
  destruct d as [rt docs | err]; cbn [deliver deliveryFails].
  - destruct (collectPreviews rt uid docs) as [l|e] eqn:H.
    + rewrite (onNext_ok _ _ _ _ _ H). simpl. split.
      * rewrite buildChatsList_collect, H. done.
      * right. exists rt, docs, l. by rewrite buildChatsList_collect, H.
    + rewrite (onNext_throw _ _ _ _ _ H). simpl. split; [|by left].
      intros _. by split_and!.
  - rewrite onError_spec. simpl. split; [|by left]. intros _. by split_and!.
Qed.

Lemma failed_delivery_witness :
  let published := snd (deliver Samples.me
                          (Snapshot Samples.withBob [Samples.docA; Samples.docBob])
                          initialState) in
  (id <$> chats published = ["D"; "A"]) ∧
  (chats (snd (deliver Samples.me
                 (Snapshot Samples.offline [Samples.docB; Samples.docBob]) published))
   = chats published) ∧
  (chats (snd (deliver Samples.me
                 (Snapshot Samples.withBob [Samples.docBroken]) published))
   = chats published) ∧
  (chats (snd (deliver Samples.me (TransportError "permission-denied") published))
   = chats published).
Proof.
  intros published. split; [reflexivity|].
  split; [|split].
  - apply (failed_delivery_keeps_published_list Samples.me
             (Snapshot Samples.offline [Samples.docB; Samples.docBob]) published).
    reflexivity.
  - apply (failed_delivery_keeps_published_list Samples.me
             (Snapshot Samples.withBob [Samples.docBroken]) published).
    reflexivity.
  - apply (failed_delivery_keeps_published_list Samples.me
             (TransportError "permission-denied") published).
    exact I.
Defined.

End ChatListFacts.

(** * Properties of the dispatcher *)

Module NotificationServiceFacts.
Import Preferences NotificationService.

(** ** Proof automation *)

(** Unfolds the monad and splits on whatever the run is stuck on: a
    flag of the settings, a platform probe, a collaborator's answer. *)
Ltac unfold_js :=
  unfold Js.bind, try_catch, try_finally, when, perform, this_, Js.ret, Js.throw,
    update_this, modify in *.

Ltac split_run :=
  repeat (cbn -[drop length lookup insert union singletonM];
          match goal with
          | |- context [match ?x with _ => _ end] =>
              lazymatch x with
              | context [match _ with _ => _ end] => fail
              | _ => destruct x eqn:?
              end
          end);
  cbn -[drop length lookup insert union singletonM].

(** Closes a branch whose flags contradict the hypotheses. *)
Ltac clash :=
  exfalso;
  repeat match goal with
         | H : ?x = ?b, H' : context [?x] |- _ =>
             lazymatch b with true => idtac | false => idtac end;
             lazymatch type of H' with x = _ => fail | _ => idtac end;
             rewrite H in H'
         end;
  simpl in *; congruence.

(** Reads the effects appended to the log. *)
Ltac read_log :=
  cbn -[drop length lookup insert union singletonM];
  rewrite <- ?app_assoc; rewrite ?drop_app_length, ?drop_all; cbn.

Ltac finish_log :=
  unfold soundsPlayed, hapticsFired, previewsShown, newEffects;
  read_log; try reflexivity.

(** ** Preferences *)

Lemma spread_read (k : Key) (base : NotificationPreferences) (p : Partial) :
  read k (spread base p) = default (read k base) (mentions k p).
Proof.
  destruct k; simpl;
    match goal with |- context [default _ ?o] => by destruct o end.
Qed.

Lemma saveSettings_settings (p : Partial) (w : World) :
  settings (this (snd (saveSettings p w))) = spread (settings (this w)) p.
Proof.
  unfold saveSettings, Js.bind, when. simpl.
  destruct (truthy (messageSound' p)), (truthy (callSound' p)); reflexivity.
Qed.

Lemma saveSettings_localStorage (p : Partial) (w : World) :
  localStorage (snd (saveSettings p w)) =
  <["notificationSettings" := JSON_stringify (spread (settings (this w)) p)]> (localStorage w).
Proof.
  unfold saveSettings, Js.bind, when. simpl.
  destruct (truthy (messageSound' p)), (truthy (callSound' p)); reflexivity.
Qed.

Lemma saveSettings_returns (p : Partial) (w : World) :
  fst (saveSettings p w) = Ok tt.
Proof.
  unfold saveSettings, Js.bind, when. simpl.
  destruct (truthy (messageSound' p)), (truthy (callSound' p)); reflexivity.
Qed.

Lemma saveAll_read (k : Key) (ps : list Partial) (w : World) :
  read k (settings (this (saveAll ps w))) =
  default (read k (settings (this w))) (lastMention k ps).
Proof.
  revert w. induction ps as [|p ps IH]; intros w; simpl; [done|].
  rewrite IH, saveSettings_settings, spread_read.
  destruct (lastMention k ps); [done|]. by destruct (mentions k p).
Qed.

Lemma saveAll_snoc (ps : list Partial) (p : Partial) (w : World) :
  saveAll (ps ++ [p]) w = snd (saveSettings p (saveAll ps w)).
Proof. revert w. induction ps as [|q ps IH]; intros w; simpl; [done|]. apply IH. Qed.

Lemma JSON_stringify_member (k : Key) (s : NotificationPreferences) :
  member (keyName k) (JSON_stringify s) = Some (toJson (read k s)).
Proof. by destruct k. Qed.

(** C9. After any sequence of [saveSettings] calls on a fully populated
    preferences value, every key holds the value of the most recent
    update that mentioned it, and its earlier value when none did; each
    call returns normally and leaves in storage the whole merged
    object, all six keys with their current values. *)
Theorem saveSettings_sequence_merges (ps : list Partial) (p : Partial) (w : World) (k : Key) :
  read k (settings (this (saveAll ps w))) =
    default (read k (settings (this w))) (lastMention k ps) ∧
  fst (saveSettings p (saveAll ps w)) = Ok tt ∧
  localStorage (saveAll (ps ++ [p]) w) !! "notificationSettings" =
    Some (JSON_stringify (settings (this (saveAll (ps ++ [p]) w)))) ∧
  member (keyName k) (JSON_stringify (settings (this (saveAll (ps ++ [p]) w)))) =
    Some (toJson (default (read k (settings (this w))) (lastMention k (ps ++ [p])))).
Proof.
  split; [apply saveAll_read|].
  split; [apply saveSettings_returns|].
  split.
  - rewrite saveAll_snoc, saveSettings_localStorage, saveSettings_settings.
    apply lookup_insert_eq.
  - by rewrite JSON_stringify_member, saveAll_read.
Qed.

Lemma saveSettings_sequence_witness :
  read KcallSound
    (settings (this (saveAll [Samples.muteUpdate; Samples.ringtoneUpdate; Samples.noUpdate]
                       Samples.freshWorld)))
  = VString "/sounds/ring.mp3" ∧
  read Ksound
    (settings (this (saveAll [Samples.ringtoneUpdate; Samples.muteUpdate]
                       Samples.freshWorld)))
  = VBool false ∧
  read Kvibration
    (settings (this (saveAll [Samples.ringtoneUpdate; Samples.muteUpdate]
                       Samples.freshWorld)))
  = VBool true.
Proof.
  split; [|split].
  - apply (saveSettings_sequence_merges
             [Samples.muteUpdate; Samples.ringtoneUpdate; Samples.noUpdate]
             Samples.noUpdate Samples.freshWorld KcallSound).
  - apply (saveSettings_sequence_merges
             [Samples.ringtoneUpdate; Samples.muteUpdate]
             Samples.noUpdate Samples.freshWorld Ksound).
  - apply (saveSettings_sequence_merges
             [Samples.ringtoneUpdate; Samples.muteUpdate]
             Samples.noUpdate Samples.freshWorld Kvibration).
Defined.

(** ** The log of effects *)

Lemma newEffects_app (w w' : World) (es : list Effect) :
  effects w' = effects w ++ es → newEffects w w' = es.
Proof. intros H. unfold newEffects. rewrite H. apply drop_app_length. Qed.

Lemma newEffects_same (w : World) : newEffects w w = [].
Proof. apply newEffects_app. by rewrite app_nil_r. Qed.

(** ** The background gate *)

(** C6. With [background] off, an event that arrives while the
    application is not in the foreground (document hidden on the web,
    [foreground] false on mobile) makes the handler return at once: no
    sound, haptic or preview effect, and no change of state. *)
Theorem background_gate_suppresses_effects
    (env : Env) (w : World) (payload : MessagePayload) (notification : MobileNotification) :
  background (settings (this w)) = false →
  (document_hidden env = true →
     handleNotification env payload w = (Ok tt, w) ∧
     newEffects w (snd (handleNotification env payload w)) = []) ∧
  (mn_foreground notification = false →
     handleMobileNotification env notification w = (Ok tt, w) ∧
     newEffects w (snd (handleMobileNotification env notification w)) = []).
Proof.
  intros Hb. split; intros Hv.
  - assert (handleNotification env payload w = (Ok tt, w)) as ->.
    { unfold handleNotification, Js.bind, this_. by rewrite Hb, Hv. }
    split; [done | apply newEffects_same].
  - assert (handleMobileNotification env notification w = (Ok tt, w)) as ->.
    { unfold handleMobileNotification, Js.bind, this_. by rewrite Hb, Hv. }
    split; [done | apply newEffects_same].
Qed.

Lemma background_gate_witness :
  handleNotification (Samples.healthy false true) Samples.callPayload
    (Samples.permittedWorld Samples.quiet)
  = (Ok tt, Samples.permittedWorld Samples.quiet) ∧
  handleMobileNotification (Samples.healthy true false) Samples.mobileCall
    (Samples.permittedWorld Samples.quiet)
  = (Ok tt, Samples.permittedWorld Samples.quiet).
Proof.
  destruct (background_gate_suppresses_effects
              (Samples.healthy false true) (Samples.permittedWorld Samples.quiet)
              Samples.callPayload Samples.mobileCall eq_refl) as [Hweb _].
  destruct (background_gate_suppresses_effects
              (Samples.healthy true false) (Samples.permittedWorld Samples.quiet)
              Samples.callPayload Samples.mobileCall eq_refl) as [_ Hmobile].
  split; [apply Hweb | apply Hmobile]; reflexivity.
Defined.

(** ** The sound gate *)

Lemma playNotificationSound_spec (env : Env) (isCall : bool) (w : World) :
  ∃ es,
    playNotificationSound env isCall w =
      (Ok tt, {| this := this w; localStorage := localStorage w;
                 effects := effects w ++ es |}) ∧
    List.filter isSoundEffect es =
      [Audio_play (if isCall then CallSound else MessageSound)
         (src (if isCall then callSound_el (this w) else messageSound_el (this w)))].
Proof.
  unfold playNotificationSound. unfold_js.
  cbn. destruct (play_result env (if isCall then CallSound else MessageSound)) as [[]|e];
    cbn.
  - eexists. split; [reflexivity|]. reflexivity.
  - eexists. split; [rewrite <- app_assoc; reflexivity|]. reflexivity.
Qed.

Lemma isCallType_true (data : option (gmap string string)) :
  isCallType data = true ↔ dataType data = Some "call".
Proof.
  unfold isCallType, dataType.
  destruct (data ≫= λ m : gmap string string, m !! "type") as [t|]; [|done].
  rewrite String.eqb_eq. split; congruence.
Qed.

Lemma isCallType_false (data : option (gmap string string)) :
  isCallType data = false ↔ dataType data ≠ Some "call".
Proof.
  rewrite <- isCallType_true. by destruct (isCallType data).
Qed.

Lemma handleNotification_sounds (env : Env) (payload : MessagePayload) (w : World) :
  passesWebGate env w →
  soundsPlayed w (snd (handleNotification env payload w)) =
  if sound (settings (this w)) then
    [Audio_play (if isCallType (payload_data payload) then CallSound else MessageSound)
       (src (if isCallType (payload_data payload)
             then callSound_el (this w) else messageSound_el (this w)))]
  else [].
Proof.
  unfold passesWebGate. intros Hgate.
  unfold handleNotification, playNotificationSound. unfold_js.
  cbn -[drop length]. rewrite Hgate.
  split_run; finish_log.
Qed.

Lemma handleMobileNotification_sounds
    (env : Env) (notification : MobileNotification) (w : World) :
  passesMobileGate notification w →
  soundsPlayed w (snd (handleMobileNotification env notification w)) =
  if sound (settings (this w)) then
    [Audio_play (if isCallType (mn_data notification) then CallSound else MessageSound)
       (src (if isCallType (mn_data notification)
             then callSound_el (this w) else messageSound_el (this w)))]
  else [].
Proof.
  unfold passesMobileGate. intros Hgate.
  unfold handleMobileNotification, playNotificationSound. unfold_js.
  cbn -[drop length]. rewrite Hgate.
  split_run; finish_log.
Qed.

(** C7. For an event that passes the background gate: with [sound] on,
    exactly one sound is played, the call sound when the event's data
    type is "call" and the message sound otherwise; with [sound] off,
    none is played. This holds for web and for mobile events, whatever
    the other collaborators answer. *)
Theorem sound_gate_selects_asset
    (env : Env) (w : World) (payload : MessagePayload) (notification : MobileNotification) :
  (passesWebGate env w →
     (sound (settings (this w)) = true →
        (dataType (payload_data payload) = Some "call" →
           soundsPlayed w (snd (handleNotification env payload w)) =
             [Audio_play CallSound (src (callSound_el (this w)))]) ∧
        (dataType (payload_data payload) ≠ Some "call" →
           soundsPlayed w (snd (handleNotification env payload w)) =
             [Audio_play MessageSound (src (messageSound_el (this w)))])) ∧
     (sound (settings (this w)) = false →
        soundsPlayed w (snd (handleNotification env payload w)) = [])) ∧
  (passesMobileGate notification w →
     (sound (settings (this w)) = true →
        (dataType (mn_data notification) = Some "call" →
           soundsPlayed w (snd (handleMobileNotification env notification w)) =
             [Audio_play CallSound (src (callSound_el (this w)))]) ∧
        (dataType (mn_data notification) ≠ Some "call" →
           soundsPlayed w (snd (handleMobileNotification env notification w)) =
             [Audio_play MessageSound (src (messageSound_el (this w)))])) ∧
     (sound (settings (this w)) = false →
        soundsPlayed w (snd (handleMobileNotification env notification w)) = [])).
Proof.
  split; intros Hgate.
  - rewrite (handleNotification_sounds env payload w Hgate).
    split; intros ->; [split|done].
    + intros H%isCallType_true. by rewrite H.
    + intros H%isCallType_false. by rewrite H.
  - rewrite (handleMobileNotification_sounds env notification w Hgate).
    split; intros ->; [split|done].
    + intros H%isCallType_true. by rewrite H.
    + intros H%isCallType_false. by rewrite H.
Qed.

Lemma sound_gate_witness :
  soundsPlayed (Samples.permittedWorld DEFAULT_SETTINGS)
    (snd (handleNotification (Samples.healthy false false) Samples.callPayload
            (Samples.permittedWorld DEFAULT_SETTINGS)))
  = [Audio_play CallSound "/sounds/call.mp3"] ∧
  soundsPlayed (Samples.permittedWorld DEFAULT_SETTINGS)
    (snd (handleNotification (Samples.brokenHaptics true false) Samples.textPayload
            (Samples.permittedWorld DEFAULT_SETTINGS)))
  = [Audio_play MessageSound "/sounds/message.mp3"] ∧
  soundsPlayed (Samples.permittedWorld DEFAULT_SETTINGS)
    (snd (handleMobileNotification (Samples.healthy true false) Samples.mobileCall
            (Samples.permittedWorld DEFAULT_SETTINGS)))
  = [Audio_play CallSound "/sounds/call.mp3"].
Proof.
  split; [|split].
  - apply (sound_gate_selects_asset (Samples.healthy false false)
             (Samples.permittedWorld DEFAULT_SETTINGS) Samples.callPayload Samples.mobileCall);
      reflexivity.
  - apply (sound_gate_selects_asset (Samples.brokenHaptics true false)
             (Samples.permittedWorld DEFAULT_SETTINGS) Samples.textPayload Samples.mobileCall);
      [reflexivity | reflexivity | vm_compute; discriminate].
  - apply (sound_gate_selects_asset (Samples.healthy true false)
             (Samples.permittedWorld DEFAULT_SETTINGS) Samples.callPayload Samples.mobileCall);
      reflexivity.
Defined.

(** ** Failures of the gates' collaborators *)

(** A rejected [play()] is caught inside [playNotificationSound]: the
    sound gate always completes normally. *)
Lemma playNotificationSound_returns (env : Env) (isCall : bool) (w : World) :
  fst (playNotificationSound env isCall w) = Ok tt ∧
  this (snd (playNotificationSound env isCall w)) = this w.
Proof.
  destruct (playNotificationSound_spec env isCall w) as (es & -> & _). done.
Qed.

(** With working haptics the preview gate is reached and fires once. *)
Lemma preview_reached_after_haptics
    (env : Env) (w : World) (payload : MessagePayload) (notification : MobileNotification) :
  background (settings (this w)) = true →
  preview (settings (this w)) = true →
  hasPermission (this w) = true →
  impact_result env = Ok tt →
  length (previewsShown w (snd (handleNotification env payload w))) = 1%nat ∧
  length (previewsShown w (snd (handleMobileNotification env notification w))) = 1%nat.
Proof.
  intros Hb Hp Hperm Hi.
  unfold handleNotification, handleMobileNotification, playNotificationSound. unfold_js.
  cbn -[drop length]. rewrite Hb.
  split; split_run; try congruence; try clash; finish_log.
Qed.

(** C2. What the handlers do when the haptics collaborator rejects
    while the vibration and preview gates are both open: the rejection
    is the handler's own completion, and the preview gate is never
    attempted. The same rejection of the scheduler is the handler's
    completion as well. *)
Theorem haptic_failure_skips_preview
    (env : Env) (w : World) (payload : MessagePayload) (notification : MobileNotification)
    (e : Js.error) :
  background (settings (this w)) = true →
  vibration (settings (this w)) = true →
  preview (settings (this w)) = true →
  hasPermission (this w) = true →
  impact_result env = Throw e →
  (isPlatform_mobile env = true →
     fst (handleNotification env payload w) = Throw e ∧
     previewsShown w (snd (handleNotification env payload w)) = []) ∧
  (fst (handleMobileNotification env notification w) = Throw e ∧
   previewsShown w (snd (handleMobileNotification env notification w)) = []).
Proof.
  intros Hb Hv Hp Hperm Hi.
  unfold handleNotification, handleMobileNotification, playNotificationSound. unfold_js.
  cbn -[drop length]. rewrite Hb.
  split; [intros Hm|]; split; split_run; try congruence; try clash; finish_log.
Qed.

Lemma haptic_failure_witness :
  fst (handleNotification (Samples.brokenHaptics true false) Samples.textPayload
         (Samples.permittedWorld DEFAULT_SETTINGS))
  = Throw "Haptics: not implemented" ∧
  previewsShown (Samples.permittedWorld DEFAULT_SETTINGS)
    (snd (handleNotification (Samples.brokenHaptics true false) Samples.textPayload
            (Samples.permittedWorld DEFAULT_SETTINGS)))
  = [] ∧
  fst (handleMobileNotification (Samples.brokenHaptics true false) Samples.mobileCall
         (Samples.permittedWorld DEFAULT_SETTINGS))
  = Throw "Haptics: not implemented".
Proof.
  destruct (haptic_failure_skips_preview
              (Samples.brokenHaptics true false) (Samples.permittedWorld DEFAULT_SETTINGS)
              Samples.textPayload Samples.mobileCall "Haptics: not implemented"
              eq_refl eq_refl eq_refl eq_refl eq_refl) as [Hweb [Hmobile _]].
  destruct (Hweb eq_refl) as [Hthrow Hnone].
  split; [exact Hthrow|]. split; [exact Hnone | exact Hmobile].
Defined.

(** A rejected scheduler is the handler's completion too. *)
Lemma preview_failure_propagates
    (env : Env) (w : World) (notification : MobileNotification) (e : Js.error) :
  background (settings (this w)) = true →
  preview (settings (this w)) = true →
  impact_result env = Ok tt →
  (∀ n, schedule_result env n = Throw e) →
  fst (handleMobileNotification env notification w) = Throw e.
Proof.
  intros Hb Hp Hi Hs.
  unfold handleMobileNotification, playNotificationSound. unfold_js.
  cbn -[drop length]. rewrite Hb.
  split_run; rewrite ?Hs in *; try congruence; clash.
Qed.

(** ** Service-match notifications *)

Lemma sendServiceMatchNotification_run (env : Env) (m : ServiceMatch) (w : World) :
  sendServiceMatchNotification env m w =
  (Ok tt,
   {| this := this w; localStorage := localStorage w;
      effects :=
        effects w ++
        if preview (settings (this w)) && hasPermission (this w) then
          match schedule_result env (matchLocalNotification env (this w) m) with
          | Ok _ =>
              [LocalNotifications_schedule (matchLocalNotification env (this w) m);
               window_dispatchEvent (matchEvent m)]
          | Throw e =>
              [LocalNotifications_schedule (matchLocalNotification env (this w) m);
               console_error "Error sending service match notification:" e]
          end
        else [window_dispatchEvent (matchEvent m)] |}).
Proof.
  unfold sendServiceMatchNotification. unfold_js. cbn.
  destruct (preview (settings (this w)) && hasPermission (this w)); cbn; [|done].
  destruct (schedule_result env (matchLocalNotification env (this w) m)) as [[]|e];
    cbn; by rewrite <- ?app_assoc.
Qed.

Lemma serviceMatch_counterexample :
  ¬ serviceMatchAlwaysDispatches (Samples.brokenScheduler false false) Samples.aMatch
      (Samples.permittedWorld DEFAULT_SETTINGS).
Proof.
  intros [_ H]. rewrite sendServiceMatchNotification_run in H.
  vm_compute in H. apply list_elem_of_In in H.
  destruct H as [H | [H | []]]; discriminate H.
Qed.

(** C3, amended. [sendServiceMatchNotification] never raises to its
    caller. Whenever scheduling is skipped (preview off or no
    permission) or completes without throwing, the last effect is the
    dispatch of the UI event "showNotification", which carries the title
    and body of the scheduled notification and an action that navigates
    to the details view of the match. A throw of the scheduling
    collaborator is logged and swallowed. *)
Theorem sendServiceMatchNotification_swallows
    (env : Env) (m : ServiceMatch) (w : World) :
  fst (sendServiceMatchNotification env m w) = Ok tt ∧
  (preview (settings (this w)) && hasPermission (this w) = false ∨
   schedule_result env (matchLocalNotification env (this w) m) = Ok tt →
     last (newEffects w (snd (sendServiceMatchNotification env m w)))
       = Some (window_dispatchEvent (matchEvent m))) ∧
  (∀ e, preview (settings (this w)) && hasPermission (this w) = true →
        schedule_result env (matchLocalNotification env (this w) m) = Throw e →
        console_error "Error sending service match notification:" e
          ∈ newEffects w (snd (sendServiceMatchNotification env m w))) ∧
  event_name (matchEvent m) = "showNotification" ∧
  detail_title (matchEvent m) = ln_title (matchLocalNotification env (this w) m) ∧
  detail_message (matchEvent m) = ln_body (matchLocalNotification env (this w) m) ∧
  action_href (matchEvent m) = "/services/matches/" +:+ match_id m.
Proof.
  rewrite sendServiceMatchNotification_run. cbn [fst snd].
  split; [done|]. split; [|split; [|done]].
  - intros H. erewrite newEffects_app by reflexivity.
    destruct H as [-> | ->]; [done|].
    by destruct (preview (settings (this w)) && hasPermission (this w)).
  - intros e -> ->. erewrite newEffects_app by reflexivity.
    apply list_elem_of_further, list_elem_of_here.
Qed.

Lemma sendServiceMatchNotification_witness :
  last (newEffects Samples.freshWorld
          (snd (sendServiceMatchNotification (Samples.brokenScheduler false false)
                  Samples.aMatch Samples.freshWorld)))
  = Some (window_dispatchEvent (matchEvent Samples.aMatch)) ∧
  last (newEffects (Samples.permittedWorld DEFAULT_SETTINGS)
          (snd (sendServiceMatchNotification (Samples.healthy true false)
                  Samples.aMatch (Samples.permittedWorld DEFAULT_SETTINGS))))
  = Some (window_dispatchEvent (matchEvent Samples.aMatch)) ∧
  console_error "Error sending service match notification:"
      "LocalNotifications: schedule failed"
    ∈ newEffects (Samples.permittedWorld DEFAULT_SETTINGS)
        (snd (sendServiceMatchNotification (Samples.brokenScheduler false false)
                Samples.aMatch (Samples.permittedWorld DEFAULT_SETTINGS))).
Proof.
  split; [|split].
  - apply (sendServiceMatchNotification_swallows (Samples.brokenScheduler false false)
             Samples.aMatch Samples.freshWorld).
    left. reflexivity.
  - apply (sendServiceMatchNotification_swallows (Samples.healthy true false)
             Samples.aMatch (Samples.permittedWorld DEFAULT_SETTINGS)).
    right. reflexivity.
  - apply (sendServiceMatchNotification_swallows (Samples.brokenScheduler false false)
             Samples.aMatch (Samples.permittedWorld DEFAULT_SETTINGS));
      reflexivity.
Defined.

(** ** The [initialized] flag *)

Lemma keeps_ret {A} (a : A) : keepsInitialized (Js.ret a : M World A).
Proof. by intros w. Qed.

Lemma keeps_throw {A} (e : Js.error) : keepsInitialized (Js.throw e : M World A).
Proof. by intros w. Qed.

Lemma keeps_this_ : keepsInitialized this_.
Proof. by intros w. Qed.

Lemma keeps_perform {A} (e : Effect) (r : outcome A) : keepsInitialized (perform e r).
Proof. by intros w. Qed.

Lemma keeps_bind {A B} (m : M World A) (f : A → M World B) :
  keepsInitialized m → (∀ a, keepsInitialized (f a)) → keepsInitialized (Js.bind m f).
Proof.
  intros Hm Hf w. unfold Js.bind. specialize (Hm w).
  destruct (m w) as [[a|e] w']; simpl in *; [|done].
  by rewrite Hf.
Qed.

Lemma keeps_try_catch {A} (m : M World A) (h : Js.error → M World A) :
  keepsInitialized m → (∀ e, keepsInitialized (h e)) → keepsInitialized (try_catch m h).
Proof.
  intros Hm Hh w. unfold try_catch. specialize (Hm w).
  destruct (m w) as [[a|e] w']; simpl in *; [done|].
  by rewrite Hh.
Qed.

Lemma keeps_when (c : bool) (m : M World unit) :
  keepsInitialized m → keepsInitialized (when c m).
Proof. intros Hm. destruct c; [done | apply keeps_ret]. Qed.

Lemma keeps_if {A} (c : bool) (m1 m2 : M World A) :
  keepsInitialized m1 → keepsInitialized m2 → keepsInitialized (if c then m1 else m2).
Proof. by destruct c. Qed.

Lemma keeps_set_hasPermission (b : bool) : keepsInitialized (set_hasPermission b).
Proof. by intros w. Qed.

Lemma keeps_set_settings (p : NotificationPreferences) : keepsInitialized (set_settings p).
Proof. by intros w. Qed.

Lemma keeps_set_messaging : keepsInitialized set_messaging.
Proof. by intros w. Qed.

Lemma keeps_set_messageSound_src (u : string) : keepsInitialized (set_messageSound_src u).
Proof. by intros w. Qed.

Lemma keeps_set_callSound_src (u : string) : keepsInitialized (set_callSound_src u).
Proof. by intros w. Qed.

Lemma keeps_localStorage_setItem (k : string) (v : json) :
  keepsInitialized (localStorage_setItem k v).
Proof. by intros w. Qed.

Create HintDb keeps.
#[local] Hint Resolve keeps_ret keeps_throw keeps_this_ keeps_perform keeps_bind
  keeps_try_catch keeps_when keeps_if keeps_set_hasPermission keeps_set_settings
  keeps_set_messaging keeps_set_messageSound_src keeps_set_callSound_src
  keeps_localStorage_setItem : keeps.

Ltac keeps := unfold discard; cbv zeta; eauto 30 with keeps.

Lemma keeps_saveSettings (p : Partial) : keepsInitialized (saveSettings p).
Proof. unfold saveSettings. keeps. Qed.

Lemma keeps_getSettings : keepsInitialized getSettings.
Proof. unfold getSettings. keeps. Qed.

Lemma keeps_initializeWebNotifications (env : Env) :
  keepsInitialized (initializeWebNotifications env).
Proof. unfold initializeWebNotifications. keeps. Qed.

Lemma keeps_initializeMobileNotifications (env : Env) :
  keepsInitialized (initializeMobileNotifications env).
Proof. unfold initializeMobileNotifications. keeps. Qed.

Lemma keeps_platformSetup (env : Env) : keepsInitialized (platformSetup env).
Proof.
  unfold platformSetup. apply keeps_if;
    [apply keeps_initializeMobileNotifications | apply keeps_initializeWebNotifications].
Qed.

Lemma keeps_playNotificationSound (env : Env) (isCall : bool) :
  keepsInitialized (playNotificationSound env isCall).
Proof. unfold playNotificationSound. keeps. Qed.

#[local] Hint Resolve keeps_playNotificationSound : keeps.

Lemma keeps_handleNotification (env : Env) (payload : MessagePayload) :
  keepsInitialized (handleNotification env payload).
Proof. unfold handleNotification. keeps. Qed.

Lemma keeps_handleMobileNotification (env : Env) (notification : MobileNotification) :
  keepsInitialized (handleMobileNotification env notification).
Proof. unfold handleMobileNotification. keeps. Qed.

Lemma keeps_sendServiceMatchNotification (env : Env) (m : ServiceMatch) :
  keepsInitialized (sendServiceMatchNotification env m).
Proof. unfold sendServiceMatchNotification. keeps. Qed.

Lemma keeps_requestPermission (env : Env) : keepsInitialized (requestPermission env).
Proof. unfold requestPermission. keeps. Qed.

Lemma keeps_showNotification (env : Env) (title : string) (options : gmap string string) :
  keepsInitialized (showNotification env title options).
Proof. unfold showNotification. keeps. Qed.

(** Every entry point but [initialize] leaves the flag alone. *)
Lemma invoke_keeps (env : Env) (c : Call) :
  c ≠ CallInitialize → keepsInitialized (invoke env c).
Proof.
  destruct c; intros Hc; [done|..]; simpl; unfold discard.
  - apply keeps_saveSettings.
  - apply keeps_bind; [apply keeps_getSettings | intros; apply keeps_ret].
  - apply keeps_handleNotification.
  - apply keeps_handleMobileNotification.
  - apply keeps_sendServiceMatchNotification.
  - apply keeps_bind; [apply keeps_requestPermission | intros; apply keeps_ret].
  - apply keeps_bind; [apply keeps_showNotification | intros; apply keeps_ret].
Qed.

Lemma initialize_noop (env : Env) (w : World) :
  initialized (this w) = true → initialize env w = (Ok tt, w).
Proof. intros H. unfold initialize, Js.bind, this_. by rewrite H. Qed.

(** From the uninitialized state, [initialize] completes as the setup
    does; the flag is set exactly when the setup succeeds, and the
    setup's own effects are part of the call's. *)
Lemma initialize_runs_setup (env : Env) (w : World) :
  initialized (this w) = false →
  fst (initialize env w) = fst (platformSetup env w) ∧
  initialized (this (snd (initialize env w))) = is_ok (fst (platformSetup env w)) ∧
  ∃ es, effects (snd (initialize env w)) = effects (snd (platformSetup env w)) ++ es.
Proof.
  intros H. pose proof (keeps_platformSetup env w) as Hk.
  unfold initialize, Js.bind, try_catch, this_. rewrite H.
  destruct (platformSetup env w) as [[[]|e] w']; simpl in *.
  - split_and!; [done..|]. exists []. by rewrite app_nil_r.
  - split_and!; [done | congruence |]. by eexists.
Qed.

Lemma run_keeps_initialized (cs : list (Env * Call)) (w : World) :
  initialized (this w) = true → initialized (this (run cs w)) = true.
Proof.
  revert w. induction cs as [|[env c] cs IH]; intros w H; simpl; [done|].
  apply IH. destruct c; try (by rewrite invoke_keeps).
  simpl. by rewrite initialize_noop.
Qed.

(** On an uninitialized service [initialize] is the platform setup
    followed by the write of the flag: its whole run, state and effects
    included, is the setup's. *)
Lemma initialize_after_setup (env : Env) (w w1 : World) :
  initialized (this w) = false →
  platformSetup env w = (Ok tt, w1) →
  initialize env w = (Ok tt, snd (set_initialized true w1)).
Proof.
  intros H Hs. unfold initialize, Js.bind, try_catch, this_. by rewrite H, Hs.
Qed.

Lemma initialize_after_failed_setup (env : Env) (w w1 : World) (e : Js.error) :
  initialized (this w) = false →
  platformSetup env w = (Throw e, w1) →
  initialize env w =
  (Throw e, snd (perform (console_error "Error initializing notifications:" e) (Ok tt) w1)).
Proof.
  intros H Hs. unfold initialize, Js.bind, try_catch, this_. by rewrite H, Hs.
Qed.

(** A platform setup that succeeds has probed the permission once. *)
Lemma platformSetup_probes_once (env : Env) (w w1 : World) :
  platformSetup env w = (Ok tt, w1) → setupRuns w w1 = 1%nat.
Proof.
  unfold setupRuns, newEffects, platformSetup, initializeWebNotifications,
    initializeMobileNotifications, set_hasPermission, set_messaging.
  unfold_js. split_run; intros H; simplify_eq; read_log; reflexivity.
Qed.

Lemma initializeAgain_noop (envs : list Env) (w : World) :
  initialized (this w) = true → run (initializeAgain envs) w = w.
Proof.
  intros H. induction envs as [|env envs IH]; simpl; [done|].
  by rewrite initialize_noop.
Qed.



End NotificationServiceFacts.

(** * Further properties of the conversation list *)

Module ChatListMore.
Import ChatList ChatListFacts.

(** ** Where a published preview comes from *)

Lemma previewsOf_inv rt uid c (ps : list ChatPreview) (p : ChatPreview) :
  previewsOf rt uid c = Ok ps → p ∈ ps →
  (data_isGroup (doc_data c) = true ∧ p = groupPreview rt uid c) ∨
  (data_isGroup (doc_data c) = false ∧
   ∃ q userData,
     otherParticipant uid (doc_data c) = Ok (Some q) ∧ q ≠ EmptyString ∧
     getDoc_users rt q = Ok (Some userData) ∧ p = directPreview rt uid c userData).
Proof.
  unfold previewsOf. intros H Hp.
  destruct (data_isGroup (doc_data c)).
  - injection H as <-. apply list_elem_of_singleton in Hp. by left.
  - right. split; [done|].
    destruct (otherParticipant uid (doc_data c)) as [[q|]|]; simpl in H;
      [| injection H as <-; by apply not_elem_of_nil in Hp | done].
    destruct (String.eqb q EmptyString) eqn:Hq; simpl in H;
      [injection H as <-; by apply not_elem_of_nil in Hp|].
    destruct (getDoc_users rt q) as [[u|]|] eqn:Hu;
      [| injection H as <-; by apply not_elem_of_nil in Hp | done].
    injection H as <-. apply list_elem_of_singleton in Hp.
    exists q, u. split_and!; try done. by apply String.eqb_neq.
Qed.

Lemma published_from_snapshot rt uid docs st (p : ChatPreview) :
  error (snd (onNext rt uid docs st)) = None →
  p ∈ chats (snd (onNext rt uid docs st)) →
  ∃ c ps, c ∈ docs ∧ previewsOf rt uid c = Ok ps ∧ p ∈ ps.
Proof.
  intros Hok Hp. apply onNext_published in Hok as (l & Hl & Hc).
  rewrite Hc, sortChats_elem in Hp.
  by apply (proj1 (collectPreviews_elem _ _ _ _ _ Hl)).
Qed.

Lemma sortMillis_of_record rt uid c (ps : list ChatPreview) (p : ChatPreview) :
  previewsOf rt uid c = Ok ps → p ∈ ps → sortMillis p = recordInstant (doc_data c).
Proof.
  intros H Hp.
  destruct (previewsOf_inv _ _ _ _ _ H Hp) as [[Hg ->] | (Hg & q & u & _ & _ & _ & ->)];
    unfold sortMillis, sortTime, recordInstant; rewrite Hg; simpl; unfold timestampOf.
  - destruct (data_lastInteraction (doc_data c)); [done|].
    by destruct (data_lastMessageTime (doc_data c)).
  - by destruct (data_lastMessageTime (doc_data c)).
Qed.

(** X1. A snapshot that is processed without error publishes a
    rearrangement of exactly the previews built from it, ordered by sort
    instant, most recent first. *)
Theorem published_list_sorted_permutation rt uid (docs : list ChatDoc) (st : HookState) :
  error (snd (onNext rt uid docs st)) = None →
  Sorted newerFirst (chats (snd (onNext rt uid docs st))) ∧
  ∃ l, buildChatsList rt uid docs [] = Ok l ∧
       Permutation (chats (snd (onNext rt uid docs st))) l.
Proof.
  intros Hok. apply onNext_published in Hok as (l & Hl & ->).
  split; [apply sortChats_newerFirst|].
  exists l. split; [|apply sortChats_Permutation].
  by rewrite buildChatsList_collect, Hl.
Qed.

Lemma published_list_sorted_witness :
  Sorted newerFirst
    (chats (snd (onNext Samples.withBob Samples.me
                   [Samples.docA; Samples.docBob; Samples.docC; Samples.docB] initialState))).
Proof.
  apply (published_list_sorted_permutation Samples.withBob Samples.me
           [Samples.docA; Samples.docBob; Samples.docC; Samples.docB] initialState).
  reflexivity.
Defined.

(** X2. Every published preview is sorted by an instant read off its
    record: a group by its last interaction, else by its last message
    time; a one-to-one conversation by its last message time alone (the
    record's last interaction is not used); the epoch when the record has
    neither. *)
Theorem published_instant_of_record rt uid (docs : list ChatDoc) (st : HookState)
    (p : ChatPreview) :
  error (snd (onNext rt uid docs st)) = None →
  p ∈ chats (snd (onNext rt uid docs st)) →
  ∃ c, c ∈ docs ∧ id p = doc_id c ∧ isGroup p = data_isGroup (doc_data c) ∧
       sortMillis p = recordInstant (doc_data c).
Proof.
  intros Hok Hp.
  destruct (published_from_snapshot _ _ _ _ _ Hok Hp) as (c & ps & Hc & Hps & Hin).
  exists c. split_and!; [done | by eapply previewsOf_id | | by eapply sortMillis_of_record].
  destruct (previewsOf_inv _ _ _ _ _ Hps Hin) as [[Hg ->] | (Hg & q & u & _ & _ & _ & ->)];
    by rewrite Hg.
Qed.

Lemma published_instant_witness :
  ∃ c, c ∈ [Samples.docA; Samples.docBob] ∧
       id (directPreview Samples.withBob Samples.me Samples.docBob Samples.bob) = doc_id c ∧
       isGroup (directPreview Samples.withBob Samples.me Samples.docBob Samples.bob)
         = data_isGroup (doc_data c) ∧
       sortMillis (directPreview Samples.withBob Samples.me Samples.docBob Samples.bob)
         = recordInstant (doc_data c).
Proof.
  apply (published_instant_of_record Samples.withBob Samples.me
           [Samples.docA; Samples.docBob] initialState
           (directPreview Samples.withBob Samples.me Samples.docBob Samples.bob)).
  - reflexivity.
  - apply list_elem_of_here.
Defined.

(** ** Stability of the published order *)

Lemma filter_insert_instant (t : Z) (x : ChatPreview) (l : list ChatPreview) :
  List.filter (λ p, sortMillis p =? t) (insert compareChats x l) =
  List.filter (λ p, sortMillis p =? t) (x :: l).
Proof.
  induction l as [|y l IH]; [done|].
  cbn [insert]. rewrite compareChats_millis.
  destruct (Z.leb_spec (sortMillis y - sortMillis x) 0) as [Hle|Hgt]; [done|].
  cbn [List.filter] in *. rewrite IH.
  destruct (Z.eqb_spec (sortMillis x) t), (Z.eqb_spec (sortMillis y) t); try done. lia.
Qed.

(** X3. The sort is stable: conversations with the same sort instant are
    published in the order the snapshot listed them. In particular all
    conversations without any instant keep their snapshot order. *)
Theorem sortChats_stable (l : list ChatPreview) (t : Z) :
  List.filter (λ p, sortMillis p =? t) (sortChats l) =
  List.filter (λ p, sortMillis p =? t) l.
Proof.
  unfold sortChats. induction l as [|x l IH]; [done|].
  cbn [sort]. rewrite filter_insert_instant. cbn [List.filter]. by rewrite IH.
Qed.

(** ** Snippets and identity of the previews *)

Lemma length_append (s1 s2 : string) :
  String.length (s1 +:+ s2) = (String.length s1 + String.length s2)%nat.
Proof. induction s1 as [|a s1 IH]; simpl; [done | by rewrite IH]. Qed.

Lemma truncateMessage_length (message : string) :
  (String.length (truncateMessage message) ≤ 13)%nat.
Proof.
  destruct (Nat.le_gt_cases (String.length message) 10) as [H|H].
  - rewrite truncateMessage_short by done. lia.
  - destruct (truncateMessage_long message H) as (head & rest & _ & Hlen & ->).
    rewrite length_append, Hlen. simpl. lia.
Qed.

Lemma snippet_length (d : ChatData) : (String.length (snippet d) ≤ 13)%nat.
Proof.
  unfold snippet. destruct (data_lastMessage d) as [m|]; [|simpl; lia].
  destruct (String.eqb m EmptyString); [simpl; lia | apply truncateMessage_length].
Qed.

(** X4. No published preview carries a snippet of more than 13
    characters (10 of the message and the ellipsis), whatever the length
    of the stored message; a record without a message, or with an empty
    one, has the empty snippet. *)
Theorem published_snippet_bounded rt uid (docs : list ChatDoc) (st : HookState)
    (p : ChatPreview) :
  error (snd (onNext rt uid docs st)) = None →
  p ∈ chats (snd (onNext rt uid docs st)) →
  (String.length (lastMessage p) ≤ 13)%nat ∧
  ∃ c, c ∈ docs ∧ id p = doc_id c ∧
       (data_lastMessage (doc_data c) = None ∨
        data_lastMessage (doc_data c) = Some EmptyString →
        lastMessage p = EmptyString).
Proof.
  intros Hok Hp.
  destruct (published_from_snapshot _ _ _ _ _ Hok Hp) as (c & ps & Hc & Hps & Hin).
  assert (lastMessage p = snippet (doc_data c)) as ->.
  { by destruct (previewsOf_inv _ _ _ _ _ Hps Hin)
      as [[_ ->] | (_ & q & u & _ & _ & _ & ->)]. }
  split; [apply snippet_length|].
  exists c. split_and!; [done | by eapply previewsOf_id |].
  unfold snippet. by intros [-> | ->].
Qed.

Lemma published_snippet_witness :
  (String.length
     (lastMessage (groupPreview Samples.noProfiles Samples.me Samples.docA)) ≤ 13)%nat.
Proof.
  apply (published_snippet_bounded Samples.noProfiles Samples.me
           [Samples.docA; Samples.docBob] initialState
           (groupPreview Samples.noProfiles Samples.me Samples.docA)).
  - reflexivity.
  - apply list_elem_of_here.
Defined.

(** X5. A group record is never dropped: in a pass that publishes, every
    group of the snapshot has its preview in the list, built from the
    record alone (no profile lookup), with the record's name. *)
Theorem group_always_published rt uid (docs : list ChatDoc) (st : HookState) (c : ChatDoc) :
  error (snd (onNext rt uid docs st)) = None →
  c ∈ docs → data_isGroup (doc_data c) = true →
  groupPreview rt uid c ∈ chats (snd (onNext rt uid docs st)) ∧
  name (groupPreview rt uid c) = data_name (doc_data c) ∧
  ∀ rt', encodeURIComponent rt' = encodeURIComponent rt →
         groupPreview rt' uid c = groupPreview rt uid c.
Proof.
  intros Hok Hc Hg. apply onNext_published in Hok as (l & Hl & ->).
  split_and!; [| done |].
  - rewrite sortChats_elem. apply (proj2 (collectPreviews_elem _ _ _ _ _ Hl)).
    exists c, [groupPreview rt uid c]. split_and!; [done | | apply list_elem_of_here].
    unfold previewsOf. by rewrite Hg.
  - intros rt' He. unfold groupPreview, avatarURL. by rewrite He.
Qed.

Lemma group_always_published_witness :
  groupPreview Samples.offline Samples.me Samples.docC
    ∈ chats (snd (onNext Samples.offline Samples.me [Samples.docC; Samples.docA]
                    initialState)).
Proof.
  apply (group_always_published Samples.offline Samples.me [Samples.docC; Samples.docA]
           initialState Samples.docC); [reflexivity | apply list_elem_of_here | reflexivity].
Defined.

Lemma or_string_nonempty (o : option string) (d : string) :
  d ≠ EmptyString → or_string o d ≠ EmptyString.
Proof.
  intros Hd. unfold or_string. destruct o as [s|]; [|done].
  destruct (String.eqb_spec s EmptyString); done.
Qed.

Lemma append_nonempty (s1 s2 : string) : s1 ≠ EmptyString → s1 +:+ s2 ≠ EmptyString.
Proof. by destruct s1. Qed.



Lemma find_all_self (uid : string) (ps : list string) :
  Forall (λ p, p = uid) ps → find (λ p, negb (String.eqb p uid)) ps = None.
Proof.
  induction 1 as [|p ps -> _ IH]; simpl; [done|]. by rewrite String.eqb_refl.
Qed.

(** X7. A one-to-one record whose participants are all the current user
    (an empty list included) yields no preview and triggers no profile
    lookup: the result is the same on every host, also one whose lookups
    reject, and the rest of the snapshot is published as if the record
    were not there. *)
Theorem self_conversation_skipped rt uid (before after : list ChatDoc) (c : ChatDoc)
    (ps : list string) (st : HookState) :
  data_isGroup (doc_data c) = false →
  data_participants (doc_data c) = Some ps →
  Forall (λ p, p = uid) ps →
  previewsOf rt uid c = Ok [] ∧
  onNext rt uid (before ++ c :: after) st = onNext rt uid (before ++ after) st.
Proof.
  intros Hg Hps Hall.
  assert (previewsOf rt uid c = Ok []) as Hnone.
  { unfold previewsOf, otherParticipant. by rewrite Hg, Hps, find_all_self. }
  split; [done|].
  assert (collectPreviews rt uid (before ++ c :: after)
          = collectPreviews rt uid (before ++ after)) as Hsame.
  { induction before as [|b before IH]; simpl; [|by rewrite IH].
    rewrite Hnone. by destruct (collectPreviews rt uid after). }
  unfold onNext, try_finally, try_catch, Js.bind, lift.
  by rewrite !buildChatsList_collect, Hsame.
Qed.

Lemma self_conversation_witness :
  onNext Samples.offline Samples.me
    ([Samples.docA] ++ Samples.docSelf :: [Samples.docC]) initialState
  = onNext Samples.offline Samples.me ([Samples.docA] ++ [Samples.docC]) initialState.
Proof.
  apply (self_conversation_skipped Samples.offline Samples.me [Samples.docA] [Samples.docC]
           (Samples.docSelf) [Samples.me; Samples.me] initialState);
    [reflexivity | reflexivity | by repeat constructor].
Defined.

Lemma poisoned_throws rt uid c :
  poisoned rt uid c → ∃ e, previewsOf rt uid c = Throw e.
Proof.
  intros [Hg [Hn | (p & e & Hp & Hne & Hl)]]; unfold previewsOf; rewrite Hg.
  - unfold otherParticipant. rewrite Hn. by eexists.
  - rewrite Hp. simpl. apply String.eqb_neq in Hne. rewrite Hne. simpl.
    rewrite Hl. by eexists.
Qed.

Lemma collectPreviews_throws rt uid (docs : list ChatDoc) (c : ChatDoc) (e : Js.error) :
  c ∈ docs → previewsOf rt uid c = Throw e → ∃ e', collectPreviews rt uid docs = Throw e'.
Proof.
  induction docs as [|d docs IH]; intros Hc He.
  - by apply not_elem_of_nil in Hc.
  - simpl. apply elem_of_cons in Hc as [<- | Hc].
    + rewrite He. by eexists.
    + destruct (previewsOf rt uid d); [|by eexists].
      destruct (IH Hc He) as (e' & ->). by eexists.
Qed.

(** X8. One record that cannot be processed fails the whole pass: when a
    one-to-one record of the snapshot has no participants array, or the
    lookup of its counterpart's profile rejects, nothing of that snapshot
    is published, however many of its other records are sound; the
    previous list stays and the error indicator is set. *)
Theorem poisoned_record_fails_pass rt uid (docs : list ChatDoc) (c : ChatDoc)
    (st : HookState) :
  c ∈ docs → poisoned rt uid c →
  deliveryFails uid (Snapshot rt docs) ∧
  chats (snd (onNext rt uid docs st)) = chats st ∧
  error (snd (onNext rt uid docs st)) = Some "Errore nel caricamento delle chat" ∧
  loading (snd (onNext rt uid docs st)) = false.
Proof.
  intros Hc Hp. destruct (poisoned_throws _ _ _ Hp) as (e & He).
  destruct (collectPreviews_throws _ _ _ _ _ Hc He) as (e' & He').
  split.
  - simpl. by rewrite buildChatsList_collect, He'.
  - by rewrite (onNext_throw _ _ _ _ _ He').
Qed.

Lemma poisoned_record_witness :
  chats (snd (onNext Samples.offline Samples.me
                [Samples.docA; Samples.docB; Samples.docBob]
                (snd (onNext Samples.withBob Samples.me [Samples.docA] initialState))))
  = chats (snd (onNext Samples.withBob Samples.me [Samples.docA] initialState)).
Proof.
  apply (poisoned_record_fails_pass Samples.offline Samples.me
           [Samples.docA; Samples.docB; Samples.docBob] Samples.docBob
           (snd (onNext Samples.withBob Samples.me [Samples.docA] initialState))).
  - apply list_elem_of_further, list_elem_of_further, list_elem_of_here.
  - split; [reflexivity|]. right.
    exists "u-bob", "FirebaseError: unavailable".
    split; [reflexivity|]. split; [discriminate | reflexivity].
Defined.

(** ** Histories of deliveries *)

Lemma deliver_fails (uid : string) (d : Delivery) (st : HookState) :
  deliveryFails uid d →
  chats (snd (deliver uid d st)) = chats st ∧
  is_Some (error (snd (deliver uid d st))) ∧
  loading (snd (deliver uid d st)) = false.
Proof.
  destruct d as [rt docs | err]; cbn [deliver deliveryFails].
  - rewrite buildChatsList_collect.
    destruct (collectPreviews rt uid docs) as [l|e] eqn:H; [done|]. intros _.
    by rewrite (onNext_throw _ _ _ _ _ H).
  - intros _. by rewrite onError_spec.
Qed.

Lemma deliverAll_snoc (uid : string) (ds : list Delivery) (d : Delivery) (st : HookState) :
  deliverAll uid (ds ++ [d]) st = snd (deliver uid d (deliverAll uid ds st)).
Proof. revert st. induction ds as [|d' ds IH]; intros st; simpl; [done | apply IH]. Qed.

(** What a sequence of completed deliveries leaves: the loading flag is
    off; the last one decides the error indicator and, when it is a
    snapshot processed without error, the list; failed ones keep the
    list. *)
Lemma deliverAll_history (uid : string) (ds fs : list Delivery) (d : Delivery)
    (st : HookState) :
  loading (deliverAll uid (ds ++ [d]) st) = false ∧
  (deliveryFails uid d →
     chats (deliverAll uid (ds ++ [d]) st) = chats (deliverAll uid ds st) ∧
     is_Some (error (deliverAll uid (ds ++ [d]) st))) ∧
  (∀ rt docs l, d = Snapshot rt docs → buildChatsList rt uid docs [] = Ok l →
     chats (deliverAll uid (ds ++ [d]) st) = sortChats l ∧
     error (deliverAll uid (ds ++ [d]) st) = None) ∧
  (Forall (deliveryFails uid) fs →
     chats (deliverAll uid (ds ++ fs) st) = chats (deliverAll uid ds st)).
Proof.
  rewrite deliverAll_snoc. split_and!.
  - destruct d as [rt docs | err]; cbn [deliver]; [|by rewrite onError_spec].
    destruct (collectPreviews rt uid docs) as [l|e] eqn:H.
    + by rewrite (onNext_ok _ _ _ _ _ H).
    + by rewrite (onNext_throw _ _ _ _ _ H).
  - intros Hf. by destruct (deliver_fails uid d (deliverAll uid ds st) Hf) as (? & ? & _).
  - intros rt docs l -> Hl. cbn [deliver].
    rewrite buildChatsList_collect in Hl.
    destruct (collectPreviews rt uid docs) as [l'|e] eqn:H; [|done].
    injection Hl as <-. by rewrite (onNext_ok _ _ _ _ _ H).
  - induction fs as [|f fs IH] using rev_ind; intros Hall.
    + by rewrite app_nil_r.
    + apply Forall_app in Hall as [Hall Hf]. apply Forall_inv in Hf.
      rewrite app_assoc, deliverAll_snoc.
      destruct (deliver_fails uid f (deliverAll uid (ds ++ fs) st) Hf) as (-> & _).
      by apply IH.
Qed.

Lemma runHook_completionOrder (uid : string) (evs : list HookEvent) (h : Hook) :
  published (runHook uid evs h) =
  deliverAll uid (completionOrder evs (pending h)) (published h).
Proof.
  revert h. induction evs as [|ev evs IH]; intros h; [done|].
  cbn [runHook completionOrder]. rewrite IH.
  destruct ev as [[rt docs | err] | n]; cbn [hookStep]; [done | done |].
  destruct (pending h !! n) as [[rt docs]|]; done.
Qed.



End ChatListMore.

(** * Further properties of the dispatcher *)

Module DispatcherMore.
Import Preferences NotificationService NotificationServiceFacts.

(** ** Stored preferences *)

Lemma JSON_parse_stringify (s : NotificationPreferences) :
  spread DEFAULT_SETTINGS (JSON_parse (JSON_stringify s)) = s.
Proof. by destruct s. Qed.

(** X10. Preferences survive a restart: what [loadSettings] reads from
    the storage left by [saveSettings] is the merged settings of the
    running service, and a service constructed from it starts
    uninitialized, without permission, with both audio elements pointing
    at the saved sounds. *)
Theorem settings_survive_restart (p : Partial) (w : World) :
  loadSettings (localStorage (snd (saveSettings p w)))
    = settings (this (snd (saveSettings p w))) ∧
  settings (construct (loadSettings (localStorage (snd (saveSettings p w)))))
    = spread (settings (this w)) p ∧
  audioFollowsSettings (construct (loadSettings (localStorage (snd (saveSettings p w))))) ∧
  initialized (construct (loadSettings (localStorage (snd (saveSettings p w))))) = false ∧
  hasPermission (construct (loadSettings (localStorage (snd (saveSettings p w))))) = false.
Proof.
  rewrite saveSettings_localStorage, saveSettings_settings.
  unfold loadSettings. rewrite lookup_insert_eq, JSON_parse_stringify. done.
Qed.

(** X11. What [loadSettings] does with missing data: with nothing stored
    it returns the defaults; from a stored object it takes each key the
    object holds at the key's type and the default for each key the
    object lacks. *)
Theorem loadSettings_fills_defaults (storage : gmap string json) (k : Key) :
  (storage !! "notificationSettings" = None → loadSettings storage = DEFAULT_SETTINGS) ∧
  (∀ j, storage !! "notificationSettings" = Some j →
        lastMember (keyName k) j = None →
        read k (loadSettings storage) = read k DEFAULT_SETTINGS) ∧
  (∀ j v, storage !! "notificationSettings" = Some j →
          lastMember (keyName k) j = Some (toJson v) →
          sameKind v (read k DEFAULT_SETTINGS) →
          read k (loadSettings storage) = v).
Proof.
  unfold loadSettings. split_and!.
  - by intros ->.
  - intros j -> Hm. rewrite spread_read.
    destruct k; simpl in *; unfold boolMember, stringMember; by rewrite Hm.
  - intros j v -> Hm Hk. rewrite spread_read.
    destruct k, v; simpl in *; unfold boolMember, stringMember; rewrite Hm; done.
Qed.

Lemma loadSettings_fills_defaults_witness :
  loadSettings ∅ = DEFAULT_SETTINGS ∧
  read Ksound (loadSettings {[ "notificationSettings" := [("sound", JBool false)] ]})
    = VBool false ∧
  read KcallSound (loadSettings {[ "notificationSettings" := [("sound", JBool false)] ]})
    = VString "/sounds/call.mp3".
Proof.
  split; [|split].
  - apply (loadSettings_fills_defaults ∅ Ksound). reflexivity.
  - apply (loadSettings_fills_defaults
             {[ "notificationSettings" := [("sound", JBool false)] ]} Ksound)
      with (j := [("sound", JBool false)]); [reflexivity | reflexivity | exact I].
  - destruct (loadSettings_fills_defaults
                {[ "notificationSettings" := [("sound", JBool false)] ]} KcallSound)
      as (_ & Hmissing & _).
    apply (Hmissing [("sound", JBool false)]); reflexivity.
Defined.

(** ** Saving *)

Lemma saveSettings_run (p : Partial) (w : World) :
  saveSettings p w =
  (Ok tt,
   {| this :=
        {| initialized := initialized (this w);
           messageSound_el :=
             if truthy (messageSound' p)
             then {| src := default EmptyString (messageSound' p);
                     preload := preload (messageSound_el (this w)) |}
             else messageSound_el (this w);
           callSound_el :=
             if truthy (callSound' p)
             then {| src := default EmptyString (callSound' p);
                     preload := preload (callSound_el (this w)) |}
             else callSound_el (this w);
           hasPermission := hasPermission (this w);
           settings := spread (settings (this w)) p;
           messaging := messaging (this w) |};
      localStorage :=
        <["notificationSettings" := JSON_stringify (spread (settings (this w)) p)]>
          (localStorage w);
      effects := effects w |}).
Proof.
  unfold saveSettings, Js.bind, when. simpl.
  destruct (this w) as [? [] [] ? ? ?].
  destruct (truthy (messageSound' p)), (truthy (callSound' p)); reflexivity.
Qed.

Lemma spread_spread (s : NotificationPreferences) (p : Partial) :
  spread (spread s p) p = spread s p.
Proof. destruct p as [[] [] [] [] [] []]; reflexivity. Qed.

(** X12. Saving is idempotent: the same update saved a second time
    changes neither the settings, the audio elements nor the stored
    object; and saving never calls a collaborator, nor touches the
    [initialized] and [hasPermission] flags. *)
Theorem saveSettings_idempotent (p : Partial) (w : World) :
  snd (saveSettings p (snd (saveSettings p w))) = snd (saveSettings p w) ∧
  effects (snd (saveSettings p w)) = effects w ∧
  initialized (this (snd (saveSettings p w))) = initialized (this w) ∧
  hasPermission (this (snd (saveSettings p w))) = hasPermission (this w).
Proof.
  rewrite !saveSettings_run. cbn [snd this localStorage effects settings initialized
    hasPermission messaging messageSound_el callSound_el].
  split; [|done].
  rewrite spread_spread, insert_insert_eq.
  destruct (truthy (messageSound' p)), (truthy (callSound' p)); reflexivity.
Qed.

(** ** What the entry points leave alone *)

Lemma initialize_keeps_preferences (env : Env) (w : World) :
  settings (this (snd (initialize env w))) = settings (this w) ∧
  messageSound_el (this (snd (initialize env w))) = messageSound_el (this w) ∧
  callSound_el (this (snd (initialize env w))) = callSound_el (this w) ∧
  localStorage (snd (initialize env w)) = localStorage w.
Proof.
  unfold initialize, platformSetup, initializeWebNotifications,
    initializeMobileNotifications, set_initialized, set_hasPermission, set_messaging.
  unfold_js. split_run; done.
Qed.

Lemma observer_keeps_state (env : Env) (c : Call) (w : World) :
  isObserver c = true →
  this (snd (invoke env c w)) = this w ∧
  localStorage (snd (invoke env c w)) = localStorage w.
Proof.
  destruct c; intros Hc; try discriminate Hc; cbn [invoke];
    unfold discard, getSettings, handleNotification, handleMobileNotification,
      sendServiceMatchNotification, requestPermission, showNotification,
      playNotificationSound;
    unfold_js; split_run; done.
Qed.

Lemma invoke_extends_log (env : Env) (c : Call) (w : World) :
  ∃ es, effects (snd (invoke env c w)) = effects w ++ es.
Proof.
  destruct c; cbn [invoke];
    unfold discard, getSettings, handleNotification, handleMobileNotification,
      sendServiceMatchNotification, requestPermission, showNotification,
      playNotificationSound, saveSettings, initialize, platformSetup,
      initializeWebNotifications, initializeMobileNotifications, set_initialized,
      set_hasPermission, set_messaging, set_settings, set_messageSound_src,
      set_callSound_src, localStorage_setItem;
    unfold_js; split_run; rewrite <- ?app_assoc;
    first [ by exists [] ; rewrite app_nil_r | by eexists ].
Qed.

(** X13. Handling an event, sending a service-match notification, asking
    for permission, showing an ad-hoc notification and reading the
    settings never write the preferences of the service, its
    [initialized], [hasPermission] and [messaging] fields, the sources of
    its two audio elements, or the stored preferences, whatever the
    collaborators answer; of the collaborator calls they only extend the
    log. (Playing a sound rewinds and starts the chosen audio element:
    its playback position is the one thing of the service these calls
    touch, and is not among the fields listed here.) *)
Theorem observers_leave_service_untouched (env : Env) (c : Call) (w : World) :
  isObserver c = true →
  settings (this (snd (invoke env c w))) = settings (this w) ∧
  initialized (this (snd (invoke env c w))) = initialized (this w) ∧
  hasPermission (this (snd (invoke env c w))) = hasPermission (this w) ∧
  messaging (this (snd (invoke env c w))) = messaging (this w) ∧
  src (messageSound_el (this (snd (invoke env c w)))) = src (messageSound_el (this w)) ∧
  src (callSound_el (this (snd (invoke env c w)))) = src (callSound_el (this w)) ∧
  localStorage (snd (invoke env c w)) = localStorage w ∧
  ∃ es, effects (snd (invoke env c w)) = effects w ++ es.
Proof.
  intros Hc. destruct (observer_keeps_state env c w Hc) as [Ht Hs].
  rewrite Ht. split_and!; [done..|]. apply invoke_extends_log.
Qed.

Lemma observers_witness :
  settings (this (snd (invoke (Samples.brokenHaptics true false)
                         (CallHandleNotification Samples.callPayload)
                         (Samples.permittedWorld DEFAULT_SETTINGS))))
  = settings (this (Samples.permittedWorld DEFAULT_SETTINGS)).
Proof.
  apply (observers_leave_service_untouched (Samples.brokenHaptics true false)
           (CallHandleNotification Samples.callPayload)
           (Samples.permittedWorld DEFAULT_SETTINGS)).
  reflexivity.
Defined.

Lemma truthy_default (o : option string) :
  o ≠ Some EmptyString →
  (if truthy o then default EmptyString o else default EmptyString None)
  = default EmptyString o ∧ (truthy o = false → o = None).
Proof.
  intros Ho. destruct o as [s|]; simpl; [|done].
  destruct (String.eqb_spec s EmptyString) as [->|]; [done|]. done.
Qed.

Lemma saveSettings_keeps_audio (p : Partial) (w : World) :
  messageSound' p ≠ Some EmptyString → callSound' p ≠ Some EmptyString →
  audioFollowsSettings (this w) → audioFollowsSettings (this (snd (saveSettings p w))).
Proof.
  intros Hm Hc [Hms Hcs]. rewrite saveSettings_run. unfold audioFollowsSettings.
  cbn [snd this settings messageSound_el callSound_el spread messageSound callSound].
  split.
  - destruct (messageSound' p) as [s|]; simpl; [|done].
    destruct (String.eqb_spec s EmptyString) as [->|]; done.
  - destruct (callSound' p) as [s|]; simpl; [|done].
    destruct (String.eqb_spec s EmptyString) as [->|]; done.
Qed.

Lemma invoke_keeps_audio (env : Env) (c : Call) (w : World) :
  namesNoEmptySound c →
  audioFollowsSettings (this w) → audioFollowsSettings (this (snd (invoke env c w))).
Proof.
  intros Hc Ha. destruct c;
    try (match goal with
         | |- context [invoke env ?c w] =>
             by rewrite (proj1 (observer_keeps_state env c w eq_refl))
         end).
  - unfold audioFollowsSettings. cbn [invoke].
    destruct (initialize_keeps_preferences env w) as (-> & -> & -> & _). done.
  - destruct Hc. by apply saveSettings_keeps_audio.
Qed.

(** X14. The audio elements follow the settings: starting from a
    constructed service, after any history of calls in which no saved
    update names an empty sound, the message and call elements point at
    the sounds the current settings name. *)
Theorem audio_follows_settings (loaded : NotificationPreferences)
    (storage : gmap string json) (cs : list (Env * Call)) :
  Forall (λ ec, namesNoEmptySound (snd ec)) cs →
  audioFollowsSettings
    (this (run cs {| this := construct loaded; localStorage := storage; effects := [] |})).
Proof.
  assert (∀ w, Forall (λ ec, namesNoEmptySound (snd ec)) cs →
               audioFollowsSettings (this w) → audioFollowsSettings (this (run cs w))) as H.
  { induction cs as [|[env c] cs IH]; intros w Hall Ha; simpl; [done|].
    apply Forall_cons in Hall as [Hc Hall]. apply IH; [done|].
    by apply invoke_keeps_audio. }
  intros Hall. by apply H.
Qed.

Lemma audio_follows_settings_witness :
  audioFollowsSettings
    (this (run [(Samples.healthy false false, CallInitialize);
                (Samples.healthy false false, CallSaveSettings Samples.ringtoneUpdate);
                (Samples.brokenHaptics true false, CallHandleNotification Samples.callPayload);
                (Samples.healthy false false, CallSaveSettings Samples.muteUpdate)]
             {| this := construct DEFAULT_SETTINGS; localStorage := ∅; effects := [] |})).
Proof.
  apply (audio_follows_settings DEFAULT_SETTINGS ∅).
  repeat constructor; discriminate.
Defined.

(** X15. A saved ringtone is the next one heard: after [saveSettings]
    with a non-empty call sound, a call event that passes the background
    gate with sound on plays exactly that sound; likewise a saved message
    sound for any other event. *)
Theorem saved_sound_is_played (env : Env) (p : Partial) (u : string)
    (payload : MessagePayload) (w : World) :
  u ≠ EmptyString →
  passesWebGate env (snd (saveSettings p w)) →
  sound (settings (this (snd (saveSettings p w)))) = true →
  (callSound' p = Some u → dataType (payload_data payload) = Some "call" →
     soundsPlayed (snd (saveSettings p w))
       (snd (handleNotification env payload (snd (saveSettings p w))))
     = [Audio_play CallSound u]) ∧
  (messageSound' p = Some u → dataType (payload_data payload) ≠ Some "call" →
     soundsPlayed (snd (saveSettings p w))
       (snd (handleNotification env payload (snd (saveSettings p w))))
     = [Audio_play MessageSound u]).
Proof.
  intros Hu Hgate Hsound. apply String.eqb_neq in Hu.
  rewrite (handleNotification_sounds env payload _ Hgate), Hsound.
  split; intros Hp Ht.
  - apply isCallType_true in Ht. rewrite Ht, saveSettings_run.
    cbn [snd this callSound_el]. rewrite Hp. simpl. by rewrite Hu.
  - apply isCallType_false in Ht. rewrite Ht, saveSettings_run.
    cbn [snd this messageSound_el]. rewrite Hp. simpl. by rewrite Hu.
Qed.

Lemma saved_sound_witness :
  soundsPlayed (snd (saveSettings Samples.ringtoneUpdate Samples.freshWorld))
    (snd (handleNotification (Samples.healthy false false) Samples.callPayload
            (snd (saveSettings Samples.ringtoneUpdate Samples.freshWorld))))
  = [Audio_play CallSound "/sounds/ring.mp3"].
Proof.
  apply (saved_sound_is_played (Samples.healthy false false) Samples.ringtoneUpdate
           "/sounds/ring.mp3" Samples.callPayload Samples.freshWorld);
    [discriminate | reflexivity | reflexivity | reflexivity | reflexivity].
Defined.

(** ** Platform setup *)

Ltac run_initialize :=
  unfold initialize, platformSetup, initializeWebNotifications,
    initializeMobileNotifications, set_initialized, set_hasPermission, set_messaging;
  unfold_js.

(** X16. Web setup and the permission prompt. On an uninitialized web
    service whose browser has the Notification API, [initialize] prompts
    once. If the answer is not "granted" it still completes and marks the
    service initialized, with [hasPermission] false and no registration
    with the push transport. If the answer is "granted" and the transport
    answers, it obtains the messaging handle and a token and subscribes
    to inbound messages, in that order, and [hasPermission] is true. *)
Theorem web_setup_follows_permission (env : Env) (w : World) (permission : string) :
  initialized (this w) = false →
  isPlatform_mobile env = false →
  Notification_in_window env = true →
  requestPermission_result env = Ok permission →
  (permission ≠ "granted" →
     fst (initialize env w) = Ok tt ∧
     initialized (this (snd (initialize env w))) = true ∧
     hasPermission (this (snd (initialize env w))) = false ∧
     newEffects w (snd (initialize env w)) = [Notification_requestPermission]) ∧
  (permission = "granted" →
     getMessaging_result env = Ok tt → is_ok (getToken_result env) = true →
     onMessage_result env = Ok tt →
     fst (initialize env w) = Ok tt ∧
     initialized (this (snd (initialize env w))) = true ∧
     hasPermission (this (snd (initialize env w))) = true ∧
     newEffects w (snd (initialize env w))
       = [Notification_requestPermission; getMessaging; getToken; onMessage]).
Proof.
  intros Hi Hm Hn Hp. split.
  - intros Hd. apply String.eqb_neq in Hd.
    run_initialize. cbn -[drop length]. rewrite Hi, Hm, Hn. cbn -[drop length].
    rewrite Hp. cbn -[drop length]. rewrite Hd. cbn -[drop length].
    split_and!; try done. unfold newEffects. read_log. done.
  - intros -> Hg Ht Ho. destruct (getToken_result env) as [token|] eqn:Htok; [|done].
    run_initialize. cbn -[drop length]. rewrite Hi, Hm, Hn. cbn -[drop length].
    rewrite Hp. cbn -[drop length]. rewrite Hg. cbn -[drop length].
    rewrite Htok. cbn -[drop length]. rewrite Ho. cbn -[drop length].
    split_and!; try done. unfold newEffects. read_log. done.
Qed.

Lemma web_setup_witness :
  newEffects Samples.freshWorld (snd (initialize (Samples.healthy false false)
                                        Samples.freshWorld))
  = [Notification_requestPermission; getMessaging; getToken; onMessage] ∧
  hasPermission (this (snd (initialize Samples.deniedPermission Samples.freshWorld)))
  = false ∧
  initialized (this (snd (initialize Samples.deniedPermission Samples.freshWorld)))
  = true.
Proof.
  destruct (web_setup_follows_permission (Samples.healthy false false) Samples.freshWorld
              "granted" eq_refl eq_refl eq_refl eq_refl) as [_ Hgranted].
  destruct (Hgranted eq_refl eq_refl eq_refl eq_refl) as (_ & _ & _ & Hlog).
  destruct (web_setup_follows_permission Samples.deniedPermission Samples.freshWorld
              "denied" eq_refl eq_refl eq_refl eq_refl) as [Hdenied _].
  assert ("denied" ≠ "granted") as Hne by discriminate.
  destruct (Hdenied Hne) as (_ & Hinit & Hperm & _).
  split; [exact Hlog|]. split; [exact Hperm | exact Hinit].
Defined.

(** X17. Mobile setup and the permission prompt. On an uninitialized
    mobile service whose plugin answers, [initialize] first checks the
    permission. If it is already granted the user is not prompted, and
    the device is registered and the listener added. Otherwise the user
    is prompted once; a grant leads to the same registration, and any
    other answer completes the setup without registering, with
    [hasPermission] false. *)
Theorem mobile_setup_follows_permission (env : Env) (w : World) (status : string) :
  initialized (this w) = false →
  isPlatform_mobile env = true →
  checkPermissions_result env = Ok status →
  register_result env = Ok tt → addListener_result env = Ok tt →
  (status = "granted" →
     fst (initialize env w) = Ok tt ∧
     hasPermission (this (snd (initialize env w))) = true ∧
     newEffects w (snd (initialize env w))
       = [PushNotifications_checkPermissions; PushNotifications_register;
          PushNotifications_addListener "pushNotificationReceived"]) ∧
  (status ≠ "granted" → requestPermissions_result env = Ok "granted" →
     fst (initialize env w) = Ok tt ∧
     hasPermission (this (snd (initialize env w))) = true ∧
     newEffects w (snd (initialize env w))
       = [PushNotifications_checkPermissions; PushNotifications_requestPermissions;
          PushNotifications_register;
          PushNotifications_addListener "pushNotificationReceived"]) ∧
  (∀ answer, status ≠ "granted" → requestPermissions_result env = Ok answer →
     answer ≠ "granted" →
     fst (initialize env w) = Ok tt ∧
     initialized (this (snd (initialize env w))) = true ∧
     hasPermission (this (snd (initialize env w))) = false ∧
     newEffects w (snd (initialize env w))
       = [PushNotifications_checkPermissions; PushNotifications_requestPermissions]).
Proof.
  intros Hi Hm Hc Hr Ha. split_and!.
  - intros ->. run_initialize. cbn -[drop length]. rewrite Hi, Hm. cbn -[drop length].
    rewrite Hc. cbn -[drop length]. rewrite Hr. cbn -[drop length]. rewrite Ha.
    cbn -[drop length]. split_and!; try done. unfold newEffects. read_log. done.
  - intros Hs Hq. apply String.eqb_neq in Hs.
    run_initialize. cbn -[drop length]. rewrite Hi, Hm. cbn -[drop length].
    rewrite Hc. cbn -[drop length]. rewrite Hs. cbn -[drop length].
    rewrite Hq. cbn -[drop length]. rewrite Hr. cbn -[drop length]. rewrite Ha.
    cbn -[drop length]. split_and!; try done. unfold newEffects. read_log. done.
  - intros answer Hs Hq Hd. apply String.eqb_neq in Hs. apply String.eqb_neq in Hd.
    run_initialize. cbn -[drop length]. rewrite Hi, Hm. cbn -[drop length].
    rewrite Hc. cbn -[drop length]. rewrite Hs. cbn -[drop length].
    rewrite Hq. cbn -[drop length]. rewrite Hd. cbn -[drop length].
    split_and!; try done. unfold newEffects. read_log. done.
Qed.

Lemma mobile_setup_witness :
  newEffects Samples.freshWorld (snd (initialize (Samples.healthy true false)
                                        Samples.freshWorld))
  = [PushNotifications_checkPermissions; PushNotifications_register;
     PushNotifications_addListener "pushNotificationReceived"].
Proof.
  destruct (mobile_setup_follows_permission (Samples.healthy true false) Samples.freshWorld
              "granted" eq_refl eq_refl eq_refl eq_refl eq_refl) as (Hgranted & _).
  apply Hgranted. reflexivity.
Defined.

(** X18. A failed setup is reported twice and may leave its mark. Every
    error that [initialize] rethrows has been logged by the platform
    setup and then again by [initialize] itself, as the last two
    collaborator calls. A browser without the Notification API fails
    before any prompt and leaves the service as it was; a failure after
    the permission was granted (no messaging handle, no token, no
    subscription) leaves [hasPermission] true although [initialized]
    stays false. *)
Theorem failed_setup_is_logged_twice (env : Env) (w : World) (e : Js.error) :
  initialized (this w) = false →
  fst (initialize env w) = Throw e →
  (∃ es, newEffects w (snd (initialize env w)) =
         es ++ [console_error
                  (if isPlatform_mobile env
                   then "Error initializing mobile notifications:"
                   else "Error initializing web notifications:") e;
                console_error "Error initializing notifications:" e]) ∧
  (isPlatform_mobile env = false → Notification_in_window env = false →
     e = "This browser does not support notifications" ∧
     this (snd (initialize env w)) = this w ∧
     List.filter (λ x, match x with Notification_requestPermission => true | _ => false end)
       (newEffects w (snd (initialize env w))) = []) ∧
  (isPlatform_mobile env = false → Notification_in_window env = true →
   requestPermission_result env = Ok "granted" →
     initialized (this (snd (initialize env w))) = false ∧
     hasPermission (this (snd (initialize env w))) = true).
Proof.
  intros Hi. run_initialize. cbn -[drop length]. rewrite Hi.
  destruct (isPlatform_mobile env) eqn:Hm; cbn -[drop length].
  - intros Hthrow. split; [|split; intros; discriminate].
    revert Hthrow. unfold newEffects. split_run; intros Hthrow; try discriminate Hthrow;
      injection Hthrow as <-; rewrite <- ?app_assoc; rewrite ?drop_app_length;
      first [ by exists [] | by eexists [_] | by eexists [_; _] | by eexists [_; _; _]
            | by eexists [_; _; _; _] ].
  - intros Hthrow. split; [|split].
    + revert Hthrow. unfold newEffects. split_run; intros Hthrow; try discriminate Hthrow;
        injection Hthrow as <-; rewrite <- ?app_assoc; rewrite ?drop_app_length;
        first [ by exists [] | by eexists [_] | by eexists [_; _] | by eexists [_; _; _]
              | by eexists [_; _; _; _] ].
    + intros _ Hn. revert Hthrow. rewrite Hn. cbn -[drop length].
      intros Hthrow. injection Hthrow as <-. split_and!; [done | by destruct (this w) |].
      unfold newEffects. read_log. done.
    + intros _ Hn Hp. revert Hthrow. rewrite Hn. cbn -[drop length].
      rewrite Hp. cbn -[drop length].
      split_run; intros Hthrow; try discriminate Hthrow; done.
Qed.

Lemma failed_setup_witness :
  (∃ es, newEffects Samples.freshWorld (snd (initialize Samples.noToken Samples.freshWorld)) =
         es ++ [console_error "Error initializing web notifications:"
                  "messaging/token-subscribe-failed";
                console_error "Error initializing notifications:"
                  "messaging/token-subscribe-failed"]) ∧
  hasPermission (this (snd (initialize Samples.noToken Samples.freshWorld))) = true ∧
  this (snd (initialize Samples.unsupportedBrowser Samples.freshWorld))
  = this Samples.freshWorld.
Proof.
  destruct (failed_setup_is_logged_twice Samples.noToken Samples.freshWorld
              "messaging/token-subscribe-failed" eq_refl eq_refl) as (Hlog & _ & Htoken).
  destruct (Htoken eq_refl eq_refl eq_refl) as (_ & Hperm).
  destruct (failed_setup_is_logged_twice Samples.unsupportedBrowser Samples.freshWorld
              "This browser does not support notifications" eq_refl eq_refl)
    as (_ & Hunsupported & _).
  destruct (Hunsupported eq_refl eq_refl) as (_ & Hsame & _).
  split; [exact Hlog|]. split; [exact Hperm | exact Hsame].
Defined.

(** ** The haptic and preview gates *)

Ltac run_handlers :=
  unfold handleNotification, handleMobileNotification, playNotificationSound;
  unfold_js.

(** Replaces the flags that a branch has fixed by their values. *)
Ltac use_flags :=
  repeat match goal with
         | H : ?x = ?b |- context [?x] =>
             lazymatch b with true => idtac | false => idtac end;
             rewrite H
         end;
  try reflexivity.

(** X19. The haptic gate. For an event that passes the background gate,
    the web handler fires one medium haptic pulse exactly when vibration
    is on and the platform is mobile, and none otherwise; the mobile
    handler fires it exactly when vibration is on, without consulting the
    platform probe. A rejected sound never prevents the pulse. *)
Theorem haptic_gate (env : Env) (w : World) (payload : MessagePayload)
    (notification : MobileNotification) :
  (passesWebGate env w →
     hapticsFired w (snd (handleNotification env payload w)) =
     if vibration (settings (this w)) && isPlatform_mobile env
     then [Haptics_impact "Medium"] else []) ∧
  (passesMobileGate notification w →
     hapticsFired w (snd (handleMobileNotification env notification w)) =
     if vibration (settings (this w)) then [Haptics_impact "Medium"] else []).
Proof.
  unfold passesWebGate, passesMobileGate.
  split; intros Hgate; run_handlers; cbn -[drop length]; rewrite Hgate;
    split_run; finish_log.
Qed.

Lemma haptic_gate_witness :
  hapticsFired (Samples.permittedWorld DEFAULT_SETTINGS)
    (snd (handleNotification (Samples.healthy false false) Samples.callPayload
            (Samples.permittedWorld DEFAULT_SETTINGS)))
  = [] ∧
  hapticsFired (Samples.permittedWorld DEFAULT_SETTINGS)
    (snd (handleMobileNotification (Samples.healthy false false) Samples.mobileCall
            (Samples.permittedWorld DEFAULT_SETTINGS)))
  = [Haptics_impact "Medium"].
Proof.
  destruct (haptic_gate (Samples.healthy false false) (Samples.permittedWorld DEFAULT_SETTINGS)
              Samples.callPayload Samples.mobileCall) as [Hweb Hmobile].
  split; [apply Hweb | apply Hmobile]; reflexivity.
Defined.

(** X20. The preview gate of the web handler. For an event that passes
    the background gate and whose haptic step does not reject: without
    permission, or with preview off, nothing is shown; otherwise exactly
    one preview is attempted. In the foreground it is a scheduled local
    notification with the current time as id and the notification sound
    only when sound is on; with the document hidden it is a system
    notification with the logo as icon. A missing or empty title becomes
    "Nuovo messaggio", a missing body the empty string. *)
Theorem web_preview_gate (env : Env) (w : World) (payload : MessagePayload) :
  passesWebGate env w →
  vibration (settings (this w)) && isPlatform_mobile env = false ∨ impact_result env = Ok tt →
  previewsShown w (snd (handleNotification env payload w)) =
  if preview (settings (this w)) && hasPermission (this w) then
    if document_hidden env then
      [new_Notification
         (or_string (payload_notification payload ≫= np_title) "Nuovo messaggio")
         {[ "body" := or_string (payload_notification payload ≫= np_body) EmptyString;
            "icon" := "/logo.svg" ]}]
    else
      [LocalNotifications_schedule
         {| ln_title := or_string (payload_notification payload ≫= np_title) "Nuovo messaggio";
            ln_body := or_string (payload_notification payload ≫= np_body) EmptyString;
            ln_id := Date_now env;
            ln_sound := if sound (settings (this w)) then Some "notification.wav" else None;
            ln_actionTypeId := EmptyString;
            ln_extra := None |}]
  else [].
Proof.
  unfold passesWebGate. intros Hgate Hhaptic.
  run_handlers. cbn -[drop length singletonM insert]. rewrite Hgate.
  destruct Hhaptic as [Hh | Hh];
    split_run; unfold soundRef in *; try congruence; try clash; finish_log; use_flags.
Qed.

Lemma web_preview_gate_witness :
  previewsShown (Samples.permittedWorld DEFAULT_SETTINGS)
    (snd (handleNotification (Samples.healthy false true) Samples.textPayload
            (Samples.permittedWorld DEFAULT_SETTINGS)))
  = [new_Notification "Nuovo messaggio" {[ "body" := "Ciao"; "icon" := "/logo.svg" ]}] ∧
  previewsShown Samples.freshWorld
    (snd (handleNotification (Samples.healthy false false) Samples.textPayload
            Samples.freshWorld))
  = [].
Proof.
  split.
  - apply (web_preview_gate (Samples.healthy false true)
             (Samples.permittedWorld DEFAULT_SETTINGS) Samples.textPayload);
      [reflexivity | left; reflexivity].
  - apply (web_preview_gate (Samples.healthy false false) Samples.freshWorld
             Samples.textPayload); [reflexivity | left; reflexivity].
Defined.

(** X21. The preview gate of the mobile handler does not ask for the
    permission: for an event that passes the background gate and whose
    haptic step does not reject, one local notification is scheduled
    exactly when preview is on, also while [hasPermission] is false; it
    carries the event's data as [extra]. *)
Theorem mobile_preview_ignores_permission (env : Env) (w : World)
    (notification : MobileNotification) :
  passesMobileGate notification w →
  vibration (settings (this w)) = false ∨ impact_result env = Ok tt →
  previewsShown w (snd (handleMobileNotification env notification w)) =
  if preview (settings (this w)) then
    [LocalNotifications_schedule
       {| ln_title := or_string (mn_title notification) "Nuovo messaggio";
          ln_body := or_string (mn_body notification) EmptyString;
          ln_id := Date_now env;
          ln_sound := if sound (settings (this w)) then Some "notification.wav" else None;
          ln_actionTypeId := EmptyString;
          ln_extra := mn_data notification |}]
  else [].
Proof.
  unfold passesMobileGate. intros Hgate Hhaptic.
  run_handlers. cbn -[drop length]. rewrite Hgate.
  destruct Hhaptic as [Hh | Hh];
    split_run; unfold soundRef in *; try congruence; try clash; finish_log; use_flags.
Qed.

Lemma mobile_preview_witness :
  length (previewsShown Samples.freshWorld
            (snd (handleMobileNotification (Samples.healthy true false) Samples.mobileCall
                    Samples.freshWorld)))
  = 1%nat ∧
  hasPermission (this Samples.freshWorld) = false.
Proof.
  split; [|reflexivity].
  rewrite (mobile_preview_ignores_permission (Samples.healthy true false)
             Samples.freshWorld Samples.mobileCall);
    [reflexivity | reflexivity | right; reflexivity].
Defined.

(** Splits a run like [split_run], reusing what earlier splits fixed. *)
Ltac split_run_once :=
  repeat (cbn -[drop length lookup insert union singletonM];
          first
            [ match goal with
              | H : ?x = _ |- context [match ?x with _ => _ end] => rewrite H
              end
            | match goal with
              | |- context [match ?x with _ => _ end] =>
                  lazymatch x with
                  | context [match _ with _ => _ end] => fail
                  | _ => destruct x eqn:?
                  end
              end ]);
  cbn -[drop length lookup insert union singletonM].

(** X22. A failing sound is isolated: whatever [play()] answers, a
    rejection included, the handlers complete in the same way, attempt
    the same sound, and fire the same haptic and preview effects. *)
Theorem sound_failure_is_isolated (env : Env) (r : SoundKind → outcome unit) (w : World)
    (payload : MessagePayload) (notification : MobileNotification) :
  (fst (handleNotification (withPlayResult r env) payload w)
     = fst (handleNotification env payload w) ∧
   soundsPlayed w (snd (handleNotification (withPlayResult r env) payload w))
     = soundsPlayed w (snd (handleNotification env payload w)) ∧
   hapticsFired w (snd (handleNotification (withPlayResult r env) payload w))
     = hapticsFired w (snd (handleNotification env payload w)) ∧
   previewsShown w (snd (handleNotification (withPlayResult r env) payload w))
     = previewsShown w (snd (handleNotification env payload w))) ∧
  (fst (handleMobileNotification (withPlayResult r env) notification w)
     = fst (handleMobileNotification env notification w) ∧
   soundsPlayed w (snd (handleMobileNotification (withPlayResult r env) notification w))
     = soundsPlayed w (snd (handleMobileNotification env notification w)) ∧
   hapticsFired w (snd (handleMobileNotification (withPlayResult r env) notification w))
     = hapticsFired w (snd (handleMobileNotification env notification w)) ∧
   previewsShown w (snd (handleMobileNotification (withPlayResult r env) notification w))
     = previewsShown w (snd (handleMobileNotification env notification w))).
Proof.
  run_handlers; unfold withPlayResult, soundsPlayed, hapticsFired, previewsShown, newEffects.
  split; split_run_once.
  all: split_and!; read_log; try reflexivity.
Qed.

(** X25. A service-match notification is subject to none of the event
    gates: it plays no sound and fires no haptic pulse, and it schedules
    its local notification exactly when preview is on and the permission
    is held, whatever the background preference and the visibility of the
    document. The scheduled notification names the match and both
    services in its data. *)
Theorem service_match_bypasses_gates (env : Env) (m : ServiceMatch) (w : World) :
  soundsPlayed w (snd (sendServiceMatchNotification env m w)) = [] ∧
  hapticsFired w (snd (sendServiceMatchNotification env m w)) = [] ∧
  previewsShown w (snd (sendServiceMatchNotification env m w)) =
    (if preview (settings (this w)) && hasPermission (this w)
     then [LocalNotifications_schedule (matchLocalNotification env (this w) m)] else []) ∧
  matchData m !! "type" = Some "service_match" ∧
  matchData m !! "matchId" = Some (match_id m) ∧
  matchData m !! "service1Id" = Some (service_id (service1 m)) ∧
  matchData m !! "service2Id" = Some (service_id (service2 m)).
Proof.
  unfold soundsPlayed, hapticsFired, previewsShown.
  rewrite sendServiceMatchNotification_run. cbn [snd].
  erewrite newEffects_app by reflexivity.
  split_and!; try reflexivity;
    destruct (preview (settings (this w)) && hasPermission (this w)); try reflexivity;
    by destruct (schedule_result env (matchLocalNotification env (this w) m)).
Qed.

(** ** Permission requests and ad-hoc notifications *)

(** X23. [requestPermission] never throws and never writes the service:
    it answers true exactly when the browser has the Notification API and
    the prompt is answered "granted", and false otherwise (no API, another
    answer, a rejected prompt); the service's own [hasPermission] is not
    updated by it. Without the API the user is not prompted. *)
Theorem requestPermission_reports (env : Env) (w : World) :
  ∃ granted,
    fst (requestPermission env w) = Ok granted ∧
    (granted = true ↔
       Notification_in_window env = true ∧ requestPermission_result env = Ok "granted") ∧
    this (snd (requestPermission env w)) = this w ∧
    (Notification_in_window env = false →
       newEffects w (snd (requestPermission env w))
         = [console_warn "Questo browser non supporta le notifiche"]).
Proof.
  unfold requestPermission. unfold_js.
  destruct (Notification_in_window env) eqn:Hn; cbn -[drop length].
  - destruct (requestPermission_result env) as [permission|e]; cbn -[drop length].
    + exists (String.eqb permission "granted").
      split; [done|]. split; [|split; [done | intros; discriminate]].
      rewrite String.eqb_eq. split; [by intros -> | intros [_ H]; congruence].
    + exists false.
      split; [done|]. split; [|split; [done | intros; discriminate]].
      split; [done | by intros [_ ?]].
  - exists false.
    split; [done|]. split; [|split; [done|]].
    + split; [done | by intros [? _]].
    + intros _. unfold newEffects. read_log. done.
Qed.

Lemma showNotification_options (options : gmap string string) (k : string) :
  (options ∪ {[ "icon" := "/icon-192x192.png"; "badge" := "/icon-192x192.png" ]}) !! k =
  match options !! k with
  | Some v => Some v
  | None =>
      if decide (k = "icon" ∨ k = "badge") then Some "/icon-192x192.png" else None
  end.
Proof.
  destruct (options !! k) as [v|] eqn:Hk.
  - by apply lookup_union_Some_l.
  - rewrite lookup_union_r by done. case_decide as Hd.
    + destruct Hd as [-> | ->]; [by rewrite lookup_insert_eq|].
      rewrite lookup_insert_ne by done. by rewrite lookup_singleton_eq.
    + rewrite lookup_insert_ne by (intros <-; apply Hd; by left).
      rewrite lookup_singleton_ne by (intros <-; apply Hd; by right). done.
Qed.

(** X24. [showNotification] never throws. Without the Notification API,
    or while the permission is not "granted", it does nothing at all.
    Otherwise it creates one notification with the given title, whose
    options are the caller's, completed by the default icon and badge for
    the keys the caller left out; the device vibrates (200 ms) only after
    the notification was created and when vibration is supported; and it
    reports a notification only if one was created. *)
Theorem showNotification_behaviour (env : Env) (title : string)
    (options : gmap string string) (w : World) :
  ∃ shown,
    fst (showNotification env title options w) = Ok shown ∧
    (Notification_in_window env = false ∨ Notification_permission env ≠ "granted" →
       shown = false ∧ snd (showNotification env title options w) = w) ∧
    (Notification_in_window env = true → Notification_permission env = "granted" →
       ∃ opts,
         previewsShown w (snd (showNotification env title options w))
           = [new_Notification title opts] ∧
         (∀ k v, options !! k = Some v → opts !! k = Some v) ∧
         (options !! "icon" = None → opts !! "icon" = Some "/icon-192x192.png") ∧
         (options !! "badge" = None → opts !! "badge" = Some "/icon-192x192.png")) ∧
    (navigator_vibrate 200 ∈ newEffects w (snd (showNotification env title options w)) →
       is_ok (new_Notification_result env title) = true ∧ vibrate_in_navigator env = true) ∧
    (shown = true → is_ok (new_Notification_result env title) = true).
Proof.
  unfold showNotification. unfold_js.
  destruct (Notification_in_window env) eqn:Hn; cbn -[drop length union].
  2: { exists false. split; [done|]. split; [intros _; by destruct w|].
       split; [intros; discriminate|]. split; [|intros; discriminate].
       rewrite newEffects_same. by intros ?%not_elem_of_nil. }
  destruct (String.eqb_spec (Notification_permission env) "granted") as [Hp|Hp];
    cbn -[drop length union].
  2: { exists false. split; [done|]. split; [intros _; by destruct w|].
       split; [intros; congruence|]. split; [|intros; discriminate].
       rewrite newEffects_same. by intros ?%not_elem_of_nil. }
  assert (∀ opts : gmap string string,
            opts = options ∪ {[ "icon" := "/icon-192x192.png";
                                "badge" := "/icon-192x192.png" ]} →
            (∀ k v, options !! k = Some v → opts !! k = Some v) ∧
            (options !! "icon" = None → opts !! "icon" = Some "/icon-192x192.png") ∧
            (options !! "badge" = None → opts !! "badge" = Some "/icon-192x192.png"))
    as Hopts.
  { intros opts ->. split_and!.
    - intros k v Hk. by rewrite showNotification_options, Hk.
    - intros Hk. by rewrite showNotification_options, Hk.
    - intros Hk. by rewrite showNotification_options, Hk. }
  destruct (new_Notification_result env title) as [[]|e]; cbn -[drop length union].
  - destruct (vibrate_in_navigator env); cbn -[drop length union].
    + destruct (vibrate_result env) as [[]|e]; cbn -[drop length union];
        eexists; (split; [reflexivity|]);
        (split; [intros [? | ?]; congruence|]);
        (split; [intros _ _; eexists; (split; [finish_log | by apply Hopts])|]);
        done.
    + exists true. split; [done|]. split; [intros [? | ?]; congruence|].
      split; [intros _ _; eexists; (split; [finish_log | by apply Hopts])|].
      split; [|done]. unfold newEffects. read_log.
      intros H%list_elem_of_singleton. discriminate H.
  - exists false. split; [done|]. split; [intros [? | ?]; congruence|].
    split; [intros _ _; eexists; (split; [finish_log | by apply Hopts])|].
    split; [|intros; discriminate]. unfold newEffects. read_log. intros H.
    apply elem_of_cons in H as [H | H]; [discriminate H|].
    apply list_elem_of_singleton in H. discriminate H.
Qed.

End DispatcherMore.
